(** * Infrar Python SDK: the provider-agnostic storage call surface

    A shallow embedding of [infrar/storage/__init__.py] (the four stub
    operations [upload], [download], [delete] and [list_objects], their
    signatures and the module's export list), followed by a model of the
    deployment-time transformer that consumes this call surface. *)

From Stdlib Require Import Ascii.
From stdpp Require Import gmap strings list sorting pretty.

(** ** Python values, exceptions and the world a call runs in *)

(** The values a caller can pass.  The annotations of the call surface say
    [str], but Python does not enforce annotations, so any value can arrive. *)
#[warnings="-register-all"]
Inductive value : Type :=
  | VNone
  | VBool (b : bool)
  | VInt (n : Z)
  | VStr (s : string)
  | VList (items : list value).

(** Why the interpreter refuses to bind the arguments of a call to the
    parameters of a [def]; each is reported as a [TypeError]. *)
Inductive arity_error : Type :=
  | UnexpectedKeyword (fn kw : string)
  | MultipleValues (fn param : string)
  | TooManyPositional (fn : string) (takes given : nat)
  | MissingRequired (fn : string) (params : list string).

(** The exception classes the module raises or documents, and [OSError],
    which the file system raises for a path it cannot examine. *)
Inductive exception : Type :=
  | NotImplementedError (message : string)
  | TypeError (why : arity_error)
  | FileNotFoundError (message : string)
  | PermissionError (message : string)
  | OSError (message : string).

(** Everything outside the call that Python code can read or change: the
    process environment ([os.environ]), the files, and what was printed. *)
Record World : Type := mkWorld {
  environ : gmap string string;
  files : gmap string string;
  stdout : list string
}.

Inductive outcome (A : Type) : Type :=
  | Returns (a : A)
  | Raises (e : exception).
Arguments Returns {A} a.
Arguments Raises {A} e.

(** A Python computation: it starts in a world and ends, normally or with an
    exception, in a world. *)
Definition Py (A : Type) : Type := World -> outcome A * World.

Definition ret {A} (a : A) : Py A := fun w => (Returns a, w).

Definition raise {A} (e : exception) : Py A := fun w => (Raises e, w).

Definition bind {A B} (m : Py A) (k : A -> Py B) : Py B :=
  fun w =>
    match m w with
    | (Returns a, w') => k a w'
    | (Raises e, w') => (Raises e, w')
    end.

(** [os.environ.get(name)] *)
Definition getenv (name : string) : Py (option string) :=
  fun w => (Returns (environ w !! name), w).

(** [print(line)] *)
Definition print (line : string) : Py unit :=
  fun w => (Returns tt, mkWorld (environ w) (files w) (stdout w ++ [line])).

Definition result_of {A} (r : outcome A * World) : outcome A := fst r.
Definition world_after {A} (r : outcome A * World) : World := snd r.

Definition returns_normally {A} (r : outcome A * World) : bool :=
  match result_of r with
  | Returns _ => true
  | Raises _ => false
  end.

(** ** The module [infrar.storage] *)

Module storage.

(** [__all__ = ["upload", "download", "delete", "list_objects"]] *)
Definition __all__ : list string :=
  ["upload"; "download"; "delete"; "list_objects"].

(** [def upload(bucket: str, source: str, destination: str) -> None] *)
Definition upload (bucket source destination : value) : Py value :=
  raise (NotImplementedError
    ("This function is transformed at deployment time. "
     +:+ "For local development, set INFRAR_PROVIDER environment variable "
     +:+ "or install provider-specific extras: pip install infrar[aws]")).

(** [def download(bucket: str, source: str, destination: str) -> None] *)
Definition download (bucket source destination : value) : Py value :=
  raise (NotImplementedError
    ("This function is transformed at deployment time. "
     +:+ "For local development, set INFRAR_PROVIDER environment variable "
     +:+ "or install provider-specific extras: pip install infrar[aws]")).

(** [def delete(bucket: str, path: str) -> None] *)
Definition delete (bucket path : value) : Py value :=
  raise (NotImplementedError
    ("This function is transformed at deployment time. "
     +:+ "For local development, set INFRAR_PROVIDER environment variable "
     +:+ "or install provider-specific extras: pip install infrar[aws]")).

(** [def list_objects(bucket: str, prefix: str = '') -> List[str]] *)
Definition list_objects (bucket prefix : value) : Py value :=
  raise (NotImplementedError
    ("This function is transformed at deployment time. "
     +:+ "For local development, set INFRAR_PROVIDER environment variable "
     +:+ "or install provider-specific extras: pip install infrar[aws]")).

(** *** Signatures *)

Record parameter : Type := mkParam {
  param_name : string;
  param_annotation : string;
  param_default : option value
}.

Inductive operation : Type := Upload | Download | Delete | ListObjects.

Definition operations : list operation := [Upload; Download; Delete; ListObjects].

Definition name (op : operation) : string :=
  match op with
  | Upload => "upload"
  | Download => "download"
  | Delete => "delete"
  | ListObjects => "list_objects"
  end.

(** The parameter list of each [def], as written. *)
Definition signature (op : operation) : list parameter :=
  match op with
  | Upload =>
      [mkParam "bucket" "str" None; mkParam "source" "str" None;
       mkParam "destination" "str" None]
  | Download =>
      [mkParam "bucket" "str" None; mkParam "source" "str" None;
       mkParam "destination" "str" None]
  | Delete => [mkParam "bucket" "str" None; mkParam "path" "str" None]
  | ListObjects =>
      [mkParam "bucket" "str" None; mkParam "prefix" "str" (Some (VStr ""))]
  end.

Definition param_names (op : operation) : list string :=
  param_name <$> signature op.

Definition required (p : parameter) : bool :=
  match param_default p with
  | None => true
  | Some _ => false
  end.

(** The body of [op] run on its local variables, which the interpreter keeps
    in an array in parameter order. *)
Definition run (op : operation) (locals : list value) : Py value :=
  let arg i := nth i locals VNone in
  match op with
  | Upload => upload (arg 0) (arg 1) (arg 2)
  | Download => download (arg 0) (arg 1) (arg 2)
  | Delete => delete (arg 0) (arg 1)
  | ListObjects => list_objects (arg 0) (arg 1)
  end.

(** *** The names the module binds *)

Inductive object : Type :=
  | Function (op : operation)
  | TypingForm (form : string)
  | Names (names : list string).

(** The module's namespace after its top-level statements ran, in order:
    [from typing import List, Optional], the assignment of [__all__], and the
    four [def]s. *)
Definition bindings : list (string * object) :=
  [("List", TypingForm "List"); ("Optional", TypingForm "Optional");
   ("__all__", Names __all__);
   ("upload", Function Upload); ("download", Function Download);
   ("delete", Function Delete); ("list_objects", Function ListObjects)].

Definition namespace : gmap string object := list_to_map bindings.

(** [callable(obj)] for a function object. *)
Definition is_function (o : object) : bool :=
  match o with
  | Function _ => true
  | _ => false
  end.

(** What [from infrar.storage import *] brings into scope. *)
Definition exported : list (string * option object) :=
  (fun n => (n, namespace !! n)) <$> __all__.

End storage.

(** ** Calling a Python function: binding arguments to parameters *)

Module Call.
Import storage.

(** One slot per parameter, filled while the arguments are bound. *)
Fixpoint param_index (params : list parameter) (kw : string) : option nat :=
  match params with
  | [] => None
  | p :: ps =>
      if String.eqb (param_name p) kw then Some 0
      else S <$> param_index ps kw
  end.

Definition positional_slots (params : list parameter) (pos : list value)
  : list (option value) :=
  (Some <$> take (length params) pos)
    ++ replicate (length params - length pos) None.

Fixpoint bind_keywords (fn : string) (params : list parameter)
    (kwargs : list (string * value)) (slots : list (option value))
  : arity_error + list (option value) :=
  match kwargs with
  | [] => inr slots
  | (kw, v) :: rest =>
      match param_index params kw with
      | None => inl (UnexpectedKeyword fn kw)
      | Some i =>
          match slots !! i with
          | Some (Some _) => inl (MultipleValues fn kw)
          | _ => bind_keywords fn params rest (<[i := Some v]> slots)
          end
      end
  end.

(** A slot left empty takes the parameter's default, or is reported missing. *)
Definition default_or_missing (p : parameter) (slot : option value)
  : string + value :=
  match slot with
  | Some v => inr v
  | None =>
      match param_default p with
      | Some d => inr d
      | None => inl (param_name p)
      end
  end.

Definition missing_of (filled : list (string + value)) : list string :=
  omap (fun x => match x with inl n => Some n | inr _ => None end) filled.

Definition values_of (filled : list (string + value)) : list value :=
  omap (fun x => match x with inl _ => None | inr v => Some v end) filled.

(** The interpreter's argument binding for a [def] whose parameters are all
    positional-or-keyword: positional arguments first, then the keywords in
    call order, then the count check, then the defaults. *)
Definition bind_arguments (fn : string) (params : list parameter)
    (args : list value) (kwargs : list (string * value))
  : arity_error + list value :=
  match bind_keywords fn params kwargs (positional_slots params args) with
  | inl e => inl e
  | inr slots =>
      if decide (length params < length args)
      then inl (TooManyPositional fn (length params) (length args))
      else
        let filled := zip_with default_or_missing params slots in
        match missing_of filled with
        | [] => inr (values_of filled)
        | missing => inl (MissingRequired fn missing)
        end
  end.

(** A call of [op] with positional arguments [args] and keyword arguments
    [kwargs]. *)
Definition call (op : operation) (args : list value)
    (kwargs : list (string * value)) : Py value :=
  match bind_arguments (name op) (signature op) args kwargs with
  | inl e => raise (TypeError e)
  | inr locals => run op locals
  end.

(** The call is well formed: its arguments bind to the parameters. *)
Definition well_formed (op : operation) (args : list value)
    (kwargs : list (string * value)) : bool :=
  match bind_arguments (name op) (signature op) args kwargs with
  | inl _ => false
  | inr _ => true
  end.

End Call.

(** The text of the [NotImplementedError] the stubs raise: the three adjacent
    literals of the [raise] statement, which Python joins at compile time. *)
Definition transformed_away : string :=
  "This function is transformed at deployment time. For local development, set INFRAR_PROVIDER environment variable or install provider-specific extras: pip install infrar[aws]".

(** The keyword arguments that pass [v n] for every parameter [n] of [op]. *)
Definition all_keywords (op : storage.operation) (v : string -> value)
  : list (string * value) :=
  (fun n => (n, v n)) <$> storage.param_names op.

(** A parameter is supplied by a call when a positional argument reaches its
    position or a keyword argument carries its name. *)
Definition supplied (args : list value) (kwargs : list (string * value))
    (i : nat) (p : storage.parameter) : Prop :=
  i < length args \/ storage.param_name p ∈ kwargs.*1.

(** ** [examples/simple_upload.py] *)

Module simple_upload.

(** [def main()]: the upload, then two lines printed. *)
Definition main : Py value :=
  bind (Call.call storage.Upload []
          [("bucket", VStr "analytics-reports");
           ("source", VStr "monthly-report.csv");
           ("destination", VStr "reports/2024/october/monthly-report.csv")])
    (fun _ =>
       bind (print "✅ File uploaded successfully!")
         (fun _ =>
            bind (print "Location: reports/2024/october/monthly-report.csv")
              (fun _ => ret VNone))).

End simple_upload.

(** ** Python built-ins the example scripts use *)

Module builtins.

(** [for x in items: body(x)] *)
Fixpoint for_each {A} (items : list A) (body : A -> Py unit) : Py unit :=
  match items with
  | [] => ret tt
  | x :: rest => bind (body x) (fun _ => for_each rest body)
  end.

(** [s.split(sep)] for a separator of one character: the pieces between the
    separators, empty pieces included. *)
Fixpoint split (sep : Ascii.ascii) (s : string) : list string :=
  match s with
  | EmptyString => [EmptyString]
  | String c rest =>
      if decide (c = sep) then EmptyString :: split sep rest
      else
        match split sep rest with
        | piece :: pieces => String c piece :: pieces
        | [] => [String c EmptyString]
        end
  end.

(** [pattern in s] for two strings. *)
Fixpoint contains (pattern s : string) : bool :=
  String.prefix pattern s
  || match s with
     | EmptyString => false
     | String _ rest => contains pattern rest
     end.

(** The order of [sorted(..., reverse=True)] on strings: greater first.
    Python compares strings by code point, which on their UTF-8 bytes is the
    lexicographic order of the bytes. *)
Definition greater_first (a b : string) : Prop := String.le b a.

#[global]
Instance greater_first_dec : RelDecision greater_first.
Proof. intros a b. unfold greater_first. apply _. Defined.

(** [sorted(items, reverse=True)] *)
Definition sorted_reverse (items : list string) : list string :=
  merge_sort greater_first items.

(** [items[start:]]: a negative start counts from the end. *)
Definition slice_from {A} (start : Z) (items : list A) : list A :=
  drop (Z.to_nat (if (start <? 0)%Z
                  then Z.max (Z.of_nat (length items) + start) 0
                  else start)) items.

(** [str(n)] for a length. *)
Definition str (n : nat) : string := pretty n.

(** The character written [\n] in a Python literal. *)
Definition nl : string := String (Ascii.ascii_of_nat 10) EmptyString.

End builtins.

(** ** What the names imported from [infrar.storage] are bound to

    The scripts call the four operations at the types of their annotations.
    As shipped the names are bound to the stubs ([sdk]); a deployment binds
    them to a provider.  The list that [list_objects] returns is the
    caller's own here: no later call changes it.  Operations that keep the
    list they returned are the subject of [Shared] below. *)

Module Backend.

Record t : Type := mk {
  upload : string -> string -> string -> Py unit;
  download : string -> string -> string -> Py unit;
  delete : string -> string -> Py unit;
  list_objects : string -> string -> Py (list string)
}.

(** The strings of a returned list ([List[str]]). *)
Definition strings_of (v : value) : list string :=
  match v with
  | VList items =>
      omap (fun x => match x with VStr s => Some s | _ => None end) items
  | _ => []
  end.

(** The stubs of [infrar.storage], called by keyword as the scripts do. *)
Definition sdk : t :=
  mk (fun bucket source destination =>
        bind (Call.call storage.Upload []
                [("bucket", VStr bucket); ("source", VStr source);
                 ("destination", VStr destination)])
          (fun _ => ret tt))
     (fun bucket source destination =>
        bind (Call.call storage.Download []
                [("bucket", VStr bucket); ("source", VStr source);
                 ("destination", VStr destination)])
          (fun _ => ret tt))
     (fun bucket path =>
        bind (Call.call storage.Delete []
                [("bucket", VStr bucket); ("path", VStr path)])
          (fun _ => ret tt))
     (fun bucket prefix =>
        bind (Call.call storage.ListObjects []
                [("bucket", VStr bucket); ("prefix", VStr prefix)])
          (fun v => ret (strings_of v))).

End Backend.

(** ** [examples/data_pipeline.py] *)

Module data_pipeline.
Import builtins.

Section Script.
Variable imported : Backend.t.

(** [process_data] reads a CSV file and writes a summary through [open] and
    [csv.DictReader]; it is taken as it comes. *)
Variable process_data : string -> string -> Py unit.

(** [def main()] *)
Definition main : Py unit :=
  let bucket := "data-processing" in
  bind (print "📥 Downloading raw data...") (fun _ =>
  bind (Backend.download imported bucket "raw/input-data.csv"
          "/tmp/input-data.csv") (fun _ =>
  bind (print "⚙️  Processing data...") (fun _ =>
  bind (process_data "/tmp/input-data.csv" "/tmp/processed-results.txt")
    (fun _ =>
  bind (print "📤 Uploading results...") (fun _ =>
  bind (Backend.upload imported bucket "/tmp/processed-results.txt"
          "processed/results.txt") (fun _ =>
  bind (print "📋 Listing all processed files...") (fun _ =>
  bind (Backend.list_objects imported bucket "processed/") (fun files =>
  bind (print ("Found " +:+ str (length files) +:+ " processed files:"))
    (fun _ =>
  bind (for_each files (fun file => print ("  - " +:+ file))) (fun _ =>
  print (nl +:+ "✅ Pipeline completed successfully!"))))))))))).

End Script.

End data_pipeline.

(** ** [examples/file_backup.py] *)

Module file_backup.
Import builtins.

Section Script.
Variable imported : Backend.t.

(** [Path(p).exists()], read from the files of the world: whether the path
    exists, or the [OSError] of a path that cannot be examined (a name that
    is too long, a directory that may not be searched), which [exists] lets
    through. *)
Variable path_exists : gmap string string -> string -> exception + bool.

(** [Path(p).name] *)
Variable path_name : string -> string.

Definition exists_ (file_path : string) : Py bool :=
  fun w =>
    match path_exists (files w) file_path with
    | inl e => (Raises e, w)
    | inr found => (Returns found, w)
    end.

(** [def backup_files(files_to_backup, bucket)]; [timestamp] is what
    [datetime.now().strftime("%Y%m%d-%H%M%S")] gave. *)
Definition backup_files (timestamp : string) (files_to_backup : list string)
    (bucket : string) : Py unit :=
  bind (print ("🔄 Starting backup at " +:+ timestamp +:+ "...")) (fun _ =>
  for_each files_to_backup (fun file_path =>
    bind (exists_ file_path) (fun found =>
    if negb found
    then print ("⚠️  Skipping " +:+ file_path +:+ " (not found)")
    else
      let backup_path :=
        "backups/" +:+ timestamp +:+ "/" +:+ path_name file_path in
      bind (Backend.upload imported bucket file_path backup_path) (fun _ =>
      print ("✅ Backed up: " +:+ path_name file_path +:+ " → "
               +:+ backup_path))))).

(** [def list_backups(bucket)] *)
Definition list_backups (bucket : string) : Py (list string) :=
  Backend.list_objects imported bucket "backups/".

(** The set built by the first loop of [cleanup_old_backups]: the second
    piece of every backup that has one. *)
Definition timestamps_of (all_backups : list string) : gset string :=
  foldl (fun timestamps backup =>
           let parts := split "/"%char backup in
           if decide (2 <= length parts)
           then
             match parts !! 1 with
             | Some part => {[ part ]} ∪ timestamps
             | None => timestamps
             end
           else timestamps) ∅ all_backups.

(** [def cleanup_old_backups(bucket, keep_latest=5)] *)
Definition cleanup_old_backups (bucket : string) (keep_latest : Z)
  : Py unit :=
  bind (list_backups bucket) (fun all_backups =>
  let timestamps := timestamps_of all_backups in
  let sorted_timestamps := sorted_reverse (elements timestamps) in
  if (Z.of_nat (length sorted_timestamps) <=? keep_latest)%Z
  then
    print ("📦 Only " +:+ str (length sorted_timestamps)
             +:+ " backup(s) exist, nothing to clean up")
  else
    let old_timestamps := slice_from keep_latest sorted_timestamps in
    bind (print ("🗑️  Cleaning up " +:+ str (length old_timestamps)
                   +:+ " old backup(s)...")) (fun _ =>
    for_each all_backups (fun backup =>
      for_each old_timestamps (fun old_ts =>
        if contains ("backups/" +:+ old_ts +:+ "/") backup
        then
          bind (Backend.delete imported bucket backup) (fun _ =>
          print ("  Deleted: " +:+ backup))
        else ret tt)))).

(** [def main()] *)
Definition main (timestamp : string) : Py unit :=
  let bucket := "my-backups" in
  let files_to_backup :=
    ["/etc/config.json"; "/var/log/app.log"; "/data/important-data.csv"] in
  bind (backup_files timestamp files_to_backup bucket) (fun _ =>
  bind (print (nl +:+ "📋 Current backups:")) (fun _ =>
  bind (list_backups bucket) (fun backups =>
  bind (for_each (take 10 backups) (fun backup => print ("  - " +:+ backup)))
    (fun _ =>
  bind (if decide (10 < length backups)
        then print ("  ... and " +:+ str (length backups - 10) +:+ " more")
        else ret tt) (fun _ =>
  bind (print "") (fun _ =>
  bind (cleanup_old_backups bucket 5) (fun _ =>
  print (nl +:+ "✅ Backup completed!")))))))).

End Script.

End file_backup.

(** ** [cleanup_old_backups] over a list the operations can still reach

    [list_objects] returns a list object, and the operations may keep it: a
    [delete] can then change the very list the second loop of
    [cleanup_old_backups] is running over.  Here [delete] gets at that list:
    it is given the items of the list and says which items it leaves. *)

Module Shared.
Import builtins.

Record t : Type := mk {
  list_objects : string -> string -> Py (list string);
  delete : string -> string -> list string -> Py (list string)
}.

(** Operations that return a list of their own and leave it alone. *)
Definition of_backend (imported : Backend.t) : t :=
  mk (Backend.list_objects imported)
     (fun bucket path items =>
        bind (Backend.delete imported bucket path) (fun _ => ret items)).

(** A run that may still be going on when the fuel is used up. *)
Definition Run (A : Type) : Type := World -> option (outcome A * World).

Definition finished {A} (m : Py A) : Run A := fun w => Some (m w).

Definition and_then {A B} (m : Py A) (k : A -> Run B) : Run B :=
  fun w =>
    match m w with
    | (Returns a, w') => k a w'
    | (Raises e, w') => Some (Raises e, w')
    end.

(** [for x in xs: body] over a list [xs] of the function's own, with a body
    that may change the shared list. *)
Fixpoint for_each_keeping {A} (xs : list A)
    (body : A -> list string -> Py (list string)) (items : list string)
  : Py (list string) :=
  match xs with
  | [] => ret items
  | x :: rest => bind (body x items) (for_each_keeping rest body)
  end.

(** [for x in items: body] over the shared list: the iterator keeps a
    position and takes the item at that position of the list as it is by
    then, until the position is past the end.  Each item taken uses up one
    unit of fuel, and so does finding the end; a body that makes the list
    longer can keep the loop going for ever. *)
Fixpoint for_each_shared (fuel position : nat)
    (body : string -> list string -> Py (list string)) (items : list string)
  : Run unit :=
  match fuel with
  | 0 => fun _ => None
  | S fuel' =>
      match items !! position with
      | None => finished (ret tt)
      | Some x =>
          and_then (body x items)
            (for_each_shared fuel' (S position) body)
      end
  end.

Section Script.
Variable imported : t.

(** [def list_backups(bucket)] *)
Definition list_backups (bucket : string) : Py (list string) :=
  list_objects imported bucket "backups/".

(** [def cleanup_old_backups(bucket, keep_latest=5)] *)
Definition cleanup_old_backups (fuel : nat) (bucket : string)
    (keep_latest : Z) : Run unit :=
  and_then (list_backups bucket) (fun all_backups =>
  let timestamps := file_backup.timestamps_of all_backups in
  let sorted_timestamps := sorted_reverse (elements timestamps) in
  if (Z.of_nat (length sorted_timestamps) <=? keep_latest)%Z
  then
    finished
      (print ("📦 Only " +:+ str (length sorted_timestamps)
                +:+ " backup(s) exist, nothing to clean up"))
  else
    let old_timestamps := slice_from keep_latest sorted_timestamps in
    and_then (print ("🗑️  Cleaning up " +:+ str (length old_timestamps)
                       +:+ " old backup(s)...")) (fun _ =>
    for_each_shared fuel 0 (fun backup =>
      for_each_keeping old_timestamps (fun old_ts items =>
        if contains ("backups/" +:+ old_ts +:+ "/") backup
        then
          bind (delete imported bucket backup items) (fun items' =>
          bind (print ("  Deleted: " +:+ backup)) (fun _ => ret items'))
        else ret items)) all_backups)).

End Script.

(** [items.remove(x)], for an [x] that is in the list: its first occurrence
    is taken out. *)
Fixpoint remove (x : string) (items : list string) : list string :=
  match items with
  | [] => []
  | y :: rest => if decide (y = x) then rest else y :: remove x rest
  end.

(** Operations whose [delete] takes the deleted path out of the list that
    [list_objects] returned, if it is there. *)
Definition removing (listing : list string) : t :=
  mk (fun _ _ => ret listing) (fun _ path items => ret (remove path items)).

End Shared.

(** ** Vocabulary for the statements about the scripts *)

(** The world after some more lines were printed. *)
Definition with_output (w : World) (lines : list string) : World :=
  mkWorld (environ w) (files w) (stdout w ++ lines).

(** The paths at the head of a list that are found not to exist. *)
Fixpoint missing_prefix (probe : string -> exception + bool)
    (paths : list string) : list string :=
  match paths with
  | [] => []
  | p :: rest =>
      match probe p with
      | inr false => p :: missing_prefix probe rest
      | _ => []
      end
  end.

(** The path after them, if there is one: the first path that exists or
    cannot be examined. *)
Definition first_obstacle (probe : string -> exception + bool)
    (paths : list string) : option string :=
  paths !! length (missing_prefix probe paths).

(** What the loop of [backup_files] raises at that path as shipped: the
    error of its examination or, for a path that exists, that of the upload
    stub. *)
Definition stopped_by (probe : string -> exception + bool) (p : string)
  : exception :=
  match probe p with
  | inl e => e
  | inr _ => NotImplementedError transformed_away
  end.

(** The timestamps [cleanup_old_backups] selects for deletion. *)
Definition old_timestamps (all_backups : list string) (keep_latest : Z)
  : list string :=
  builtins.slice_from keep_latest
    (builtins.sorted_reverse (elements (file_backup.timestamps_of all_backups))).

(** The paths its two loops pass to [delete], in order, when no deletion
    fails and no deletion changes the list the loops run over. *)
Definition deletions (all_backups old : list string) : list string :=
  all_backups ≫= fun backup =>
    old ≫= fun old_ts =>
      if builtins.contains ("backups/" +:+ old_ts +:+ "/") backup
      then [backup] else [].

(** [delete] leaves the list that [list_objects] returned as it is. *)
Definition leaves_listing (imported : Shared.t) : Prop :=
  forall (bucket path : string) (items items' : list string) (w w' : World),
    Shared.delete imported bucket path items w = (Returns items', w') ->
    items' = items.

(** A listing entry of the form [backups/TIMESTAMP/name]. *)
Definition backup_entry (timestamp name : string) : string :=
  "backups/" +:+ timestamp +:+ "/" +:+ name.

(** The character [/] does not occur in the string. *)
Fixpoint no_slash (s : string) : bool :=
  match s with
  | EmptyString => true
  | String c rest => negb (bool_decide (c = "/"%char)) && no_slash rest
  end.

(** ** The deployment-time transformer

    The repository ships the call surface only; the transformer that rewrites
    calls of it into provider SDK calls is described by the specification
    (sections 3 and 4) and is modelled here from that description. *)

Module Transformer.

(** *** Data model (specification, section 3) *)

(** Modelled from the spec: [OperationSpec], one agnostic operation with its
    ordered parameters as [(name, type, required)]. *)
Record OperationSpec : Type := mkOperationSpec {
  op_name : string;
  ordered_params : list (string * string * bool);
  description : string
}.

(** Modelled from the spec: an argument value, a literal or any other
    expression, kept as the source text it was written as and never
    evaluated. *)
Inductive fragment : Type :=
  | Literal (text : string)
  | Expression (text : string).

#[global]
Instance fragment_eq_dec : EqDecision fragment.
Proof. solve_decision. Defined.

Definition fragment_text (f : fragment) : string :=
  match f with
  | Literal t => t
  | Expression t => t
  end.

Definition is_literal (f : fragment) : bool :=
  match f with
  | Literal _ => true
  | Expression _ => false
  end.

(** Modelled from the spec: [CallSite].  The location is the position of the
    invocation in the file's structural representation; the arguments map
    parameter names to literals or expressions, in the order of the call. *)
Record CallSite : Type := mkCallSite {
  site_file_path : string;
  location : nat;
  operation_name : string;
  arguments : list (string * fragment)
}.

(** Modelled from the spec: the right-hand side of an [argument_mapping]
    entry, a native parameter (passed by keyword when it has a name, by
    position otherwise) or a fixed value inserted verbatim. *)
Inductive native_arg : Type :=
  | NativeParam (native_name : option string)
  | FixedValue (text : string).

(** Modelled from the spec: [NativeCallTemplate].  The entries of
    [argument_mapping] are kept in native parameter order. *)
Record NativeCallTemplate : Type := mkTemplate {
  target_symbol_path : list string;
  argument_mapping : list (string * native_arg);
  requires_client_handle : bool
}.

(** Modelled from the spec: [ProviderAdapter]. *)
Record ProviderAdapter : Type := mkAdapter {
  provider_id : string;
  per_operation : gmap string NativeCallTemplate;
  preamble : list string;
  client_ctor : string
}.

Inductive Severity : Type := Info | Warning | Error.

(** Modelled from the spec: [Diagnostic]. *)
Record Diagnostic : Type := mkDiagnostic {
  severity : Severity;
  call_site : option CallSite;
  message : string
}.

Definition is_error (d : Diagnostic) : bool :=
  match severity d with
  | Error => true
  | _ => false
  end.

(** A diagnostic names an operation when the operation's name occurs in its
    message. *)
Definition names_operation (operation : string) (d : Diagnostic) : Prop :=
  exists before after : string,
    message d = before +:+ operation +:+ after.

(** *** Operation Schema Registry (specification, section 4.1) *)

(** Modelled from the spec: the Registry is not in the repository.  The
    specification fixes its four operation names and states that the call
    surface exposes exactly its parameter schema, so each [OperationSpec]
    carries the parameters of the corresponding [def] and the summary line of
    its docstring. *)
Definition spec_of (op : storage.operation) : OperationSpec :=
  mkOperationSpec (storage.name op)
    ((fun p => (storage.param_name p, storage.param_annotation p,
                storage.required p)) <$> storage.signature op)
    (match op with
     | storage.Upload => "Upload a file to object storage."
     | storage.Download => "Download a file from object storage."
     | storage.Delete => "Delete an object from storage."
     | storage.ListObjects =>
         "List objects in a bucket, optionally filtered by prefix."
     end).

Definition registry : list OperationSpec := spec_of <$> storage.operations.

(** [get(operation_name) -> OperationSpec | not-found] *)
Definition get (operation : string) : option OperationSpec :=
  snd <$> list_find (fun s => op_name s = operation) registry.

Definition registry_names : list string := op_name <$> registry.

Definition spec_param_names (s : OperationSpec) : list string :=
  (fun p => p.1.1) <$> ordered_params s.

Definition required_params (s : OperationSpec) : list string :=
  (fun p => p.1.1) <$> filter (fun p => p.2 = true) (ordered_params s).

(** *** Provider Adapter Map (specification, section 4.3) *)

(** Modelled from the spec: the gaps of one operation, an absent template or
    a required parameter the template's [argument_mapping] does not cover. *)
Definition coverage_gaps (adapter : ProviderAdapter) (s : OperationSpec)
  : list Diagnostic :=
  match per_operation adapter !! op_name s with
  | None =>
      [mkDiagnostic Error None
         ("provider " +:+ provider_id adapter
            +:+ " has no native call template for operation "
            +:+ op_name s)]
  | Some template =>
      (fun p =>
         mkDiagnostic Error None
           ("provider " +:+ provider_id adapter
              +:+ " does not map parameter " +:+ p +:+ " of operation "
              +:+ op_name s))
        <$> filter (fun p => p ∉ (argument_mapping template).*1)
              (required_params s)
  end.

(** Modelled from the spec: [validate(adapter, registry) -> Diagnostic[]]. *)
Definition validate (adapter : ProviderAdapter)
    (operations : list OperationSpec) : list Diagnostic :=
  operations ≫= coverage_gaps adapter.

(** [adapter_for(provider_id) -> ProviderAdapter | not-found], over the
    adapters constructed at startup. *)
Definition adapter_for (adapters : gmap string ProviderAdapter)
    (provider : string) : option ProviderAdapter :=
  adapters !! provider.

(** *** Structural representation of a source file *)

(** Modelled from the spec: one argument of an invocation, a literal or an
    opaque expression with the keyword it is passed under, if any. *)
Record argument : Type := mkArgument {
  keyword : option string;
  expression : fragment
}.

(** Modelled from the spec: the structural representation a file is parsed
    into (section 4.2), as the sequence of its parts in source order.  It
    keeps what the transformer distinguishes: module-level documentation, the
    three ways of binding the call surface (direct or aliased import of
    operations, and a module through which they are reached by qualified
    access), the storing of a function in a variable, invocations, text that
    does not parse, and any other statement as opaque text.  An invocation
    is a call written as a statement of its own; a call inside a larger
    statement is part of that statement's text, which is not looked into. *)
Inductive node : Type :=
  | Documentation (text : string)
  | FromImport (imported : list (string * string))
  | ModuleImport (qualifier : list string)
  | Assignment (variable : string) (symbol : list string)
  | Invocation (target : list string) (args : list argument)
  | Unparseable (text : string)
  | Statement (text : string).

Abbreviation source := (list node).

Definition dotted (path : list string) : string := String.concat "." path.

Definition argument_text (a : argument) : string :=
  match keyword a with
  | Some k => k +:+ "=" +:+ fragment_text (expression a)
  | None => fragment_text (expression a)
  end.

Definition import_text (b : string * string) : string :=
  if String.eqb b.1 b.2 then b.1 else b.1 +:+ " as " +:+ b.2.

(** The statement text of a node. *)
Definition text (n : node) : string :=
  match n with
  | Documentation t => t
  | FromImport imported =>
      "from infrar.storage import "
        +:+ String.concat ", " (import_text <$> imported)
  | ModuleImport qualifier =>
      if bool_decide (qualifier = ["infrar"; "storage"])
      then "import infrar.storage"
      else "import infrar.storage as " +:+ dotted qualifier
  | Assignment variable symbol => variable +:+ " = " +:+ dotted symbol
  | Invocation target args =>
      dotted target +:+ "("
        +:+ String.concat ", " (argument_text <$> args) +:+ ")"
  | Unparseable t => t
  | Statement t => t
  end.

Definition newline : string := String (Ascii.ascii_of_nat 10) EmptyString.

(** The bytes of a file: its statement texts, one after the other. *)
Definition render (src : source) : string :=
  String.concat newline (text <$> src).

(** *** Source Scanner (specification, section 4.2) *)

(** Modelled from the spec: the symbol-binding table built in a single pass
    over the file: local names bound to an operation by a direct or aliased
    import, qualifiers through which the call surface module is reached, and
    variables an operation was stored in. *)
Record Bindings : Type := mkBindings {
  direct : gmap string string;
  qualifiers : gset (list string);
  indirect : gmap string string
}.

Definition no_bindings : Bindings := mkBindings ∅ ∅ ∅.

Definition is_operation (n : string) : bool :=
  bool_decide (n ∈ registry_names).

(** The operation a symbol path refers to: a bound local name, or an
    operation name reached through a bound qualifier. *)
Definition resolve (b : Bindings) (path : list string) : option string :=
  match path with
  | [n] => direct b !! n
  | _ =>
      match last path with
      | Some attr =>
          if bool_decide (removelast path ∈ qualifiers b) && is_operation attr
          then Some attr
          else None
      | None => None
      end
  end.

Definition bind_import (names : gmap string string) (b : string * string)
  : gmap string string :=
  if is_operation b.1 then <[b.2 := b.1]> names else names.

Definition bind_node (b : Bindings) (n : node) : Bindings :=
  match n with
  | FromImport imported =>
      mkBindings (foldl bind_import (direct b) imported)
        (qualifiers b) (indirect b)
  | ModuleImport qualifier =>
      mkBindings (direct b) ({[ qualifier ]} ∪ qualifiers b) (indirect b)
  | Assignment variable symbol =>
      match resolve b symbol with
      | Some operation =>
          mkBindings (direct b) (qualifiers b)
            (<[variable := operation]> (indirect b))
      | None => b
      end
  | _ => b
  end.

Definition collect_bindings (src : source) : Bindings :=
  foldl bind_node no_bindings src.

Inductive extraction : Type :=
  | Extracted (arguments : list (string * fragment))
  | UnrecognizedKeyword (kw : string)
  | Ambiguous.

(** Modelled from the spec: argument bindings are extracted by keyword when
    present and by positional order of the [OperationSpec] otherwise; a
    keyword the operation does not have is an error; a parameter bound twice
    or a positional argument past the last parameter is not guessed at. *)
Fixpoint extract_arguments (params : list string) (args : list argument)
    (position : nat) (bound : list (string * fragment)) : extraction :=
  match args with
  | [] => Extracted bound
  | a :: rest =>
      match keyword a with
      | Some k =>
          if bool_decide (k ∈ params)
          then
            if bool_decide (k ∈ bound.*1) then Ambiguous
            else extract_arguments params rest position
                   (bound ++ [(k, expression a)])
          else UnrecognizedKeyword k
      | None =>
          match params !! position with
          | Some p =>
              if bool_decide (p ∈ bound.*1) then Ambiguous
              else extract_arguments params rest (S position)
                     (bound ++ [(p, expression a)])
          | None => Ambiguous
          end
      end
  end.

Definition located (file_path : string) (i : nat) (operation : string)
  : option CallSite :=
  Some (mkCallSite file_path i operation []).

(** Modelled from the spec: what the Scanner reports for the node at
    position [i]: a call site for an invocation whose target resolves to an
    operation and whose arguments bind; an error for an unrecognized keyword
    or unparseable text; a warning, the call being passed through, for a call
    through a variable and for a call whose arguments are not bound with
    certainty. *)
Definition scan_node (b : Bindings) (file_path : string) (i : nat) (n : node)
  : list CallSite * list Diagnostic :=
  match n with
  | Invocation target args =>
      match resolve b target with
      | Some operation =>
          match get operation with
          | Some spec =>
              match extract_arguments (spec_param_names spec) args 0 [] with
              | Extracted arguments =>
                  if bool_decide (required_params spec ⊆ arguments.*1)
                  then ([mkCallSite file_path i operation arguments], [])
                  else
                    ([], [mkDiagnostic Warning
                            (located file_path i operation)
                            ("call of " +:+ operation
                               +:+ " leaves a required parameter unbound")])
              | UnrecognizedKeyword kw =>
                  ([], [mkDiagnostic Error (located file_path i operation)
                          ("call of " +:+ operation
                             +:+ " has unrecognized keyword argument "
                             +:+ kw)])
              | Ambiguous =>
                  ([], [mkDiagnostic Warning (located file_path i operation)
                          ("arguments of call of " +:+ operation
                             +:+ " are ambiguous")])
              end
          | None => ([], [])
          end
      | None =>
          match target with
          | [variable] =>
              match indirect b !! variable with
              | Some operation =>
                  ([], [mkDiagnostic Warning (located file_path i operation)
                          ("call of " +:+ operation +:+ " through variable "
                             +:+ variable +:+ " is passed through")])
              | None => ([], [])
              end
          | _ => ([], [])
          end
      end
  | Unparseable _ =>
      ([], [mkDiagnostic Error None ("unparseable source in " +:+ file_path)])
  | _ => ([], [])
  end.

(** Modelled from the spec:
    [scan(source_text, file_path) -> (CallSite[], Diagnostic[])], from the
    structural representation on: the parser that reads the source text into
    it is not modelled. *)
Definition scan (src : source) (file_path : string)
  : list CallSite * list Diagnostic :=
  let found := imap (scan_node (collect_bindings src) file_path) src in
  (mjoin (fst <$> found), mjoin (snd <$> found)).

(** *** Call Rewriter (specification, section 4.4) *)

Definition argument_of (site : CallSite) (param : string)
  : option fragment :=
  (list_to_map (arguments site) : gmap string fragment) !! param.

(** The native argument an [argument_mapping] entry yields at a call site:
    the expression bound to the agnostic parameter, in the mapped native
    parameter, or the fixed value verbatim. *)
Definition native_argument (site : CallSite) (entry : string * native_arg)
  : option argument :=
  match entry.2 with
  | NativeParam native_name => mkArgument native_name <$> argument_of site entry.1
  | FixedValue value_text => Some (mkArgument None (Literal value_text))
  end.

Definition mapped_params (template : NativeCallTemplate) : list string :=
  omap (fun entry =>
          match entry.2 with
          | NativeParam _ => Some entry.1
          | FixedValue _ => None
          end) (argument_mapping template).

(** The original expressions in the order the native call evaluates them. *)
Definition native_order (template : NativeCallTemplate) (site : CallSite)
  : list fragment :=
  omap (argument_of site) (mapped_params template).

Definition temporary (param : string) : string := "_infrar_" +:+ param.

(** The call site with every argument expression replaced by the
    intermediate binding that holds its value. *)
Definition materialized (site : CallSite) : CallSite :=
  mkCallSite (site_file_path site) (location site) (operation_name site)
    ((fun a => (a.1, Expression (temporary a.1))) <$> arguments site).

Definition materialize (site : CallSite) : list node :=
  (fun a => Statement (temporary a.1 +:+ " = " +:+ fragment_text a.2))
    <$> arguments site.

Definition native_call (template : NativeCallTemplate) (site : CallSite)
  : node :=
  Invocation (target_symbol_path template)
    (omap (native_argument site) (argument_mapping template)).

(** Modelled from the spec: [rewrite(call_site, adapter) ->
    (replacement_node, needs_client_handle) | Diagnostic].  The replacement
    is the native invocation; when the native parameter order would evaluate
    the original arguments in another order than the call site did and one
    of them is not a literal, they are first bound, in their original order,
    to intermediate names.  An argument without a native parameter cannot be
    carried over and is a rewrite error. *)
Definition rewrite (site : CallSite) (adapter : ProviderAdapter)
  : list node * bool + Diagnostic :=
  match per_operation adapter !! operation_name site with
  | None =>
      inr (mkDiagnostic Error (Some site)
             ("provider " +:+ provider_id adapter
                +:+ " has no native call template for operation "
                +:+ operation_name site))
  | Some template =>
      if bool_decide ((arguments site).*1 ⊆ mapped_params template)
      then
        if bool_decide (native_order template site = (arguments site).*2)
           || forallb is_literal (arguments site).*2
        then inl ([native_call template site],
                  requires_client_handle template)
        else inl (materialize site
                    ++ [native_call template (materialized site)],
                  requires_client_handle template)
      else
        inr (mkDiagnostic Error (Some site)
               ("an argument of the call of " +:+ operation_name site
                  +:+ " has no native parameter"))
  end.

(** *** Import/Preamble Injector (specification, section 4.5) *)

Definition needs_client (adapter : ProviderAdapter)
    (used_operations : gset string) : bool :=
  existsb (fun operation =>
             match per_operation adapter !! operation with
             | Some template => requires_client_handle template
             | None => false
             end) (elements used_operations).

(** The statements the rewritten calls of [used_operations] depend on: the
    provider's preamble, and the client constructor when one of them needs
    the client handle. *)
Definition candidates (adapter : ProviderAdapter)
    (used_operations : gset string) : list string :=
  if bool_decide (used_operations = ∅) then []
  else preamble adapter
         ++ (if needs_client adapter used_operations
             then [client_ctor adapter] else []).

(** The candidates, each once, whose exact text no statement of the source
    already has. *)
Definition missing_lines (src : source) (lines : list string) : list string :=
  filter (fun line => line ∉ text <$> src) (remove_dups lines).

Definition is_documentation (n : node) : bool :=
  match n with
  | Documentation _ => true
  | _ => false
  end.

Fixpoint documentation_prefix (src : source) : source :=
  match src with
  | n :: rest =>
      if is_documentation n then n :: documentation_prefix rest else []
  | [] => []
  end.

Fixpoint after_documentation (src : source) : source :=
  match src with
  | n :: rest => if is_documentation n then after_documentation rest else src
  | [] => []
  end.

(** Modelled from the spec: [inject(original_source, adapter,
    used_operations) -> rewritten_source].  The missing candidate statements
    are inserted after the module-level documentation at the top of the
    file. *)
Definition inject (original_source : source) (adapter : ProviderAdapter)
    (used_operations : gset string) : source :=
  documentation_prefix original_source
    ++ (Statement <$> missing_lines original_source
                        (candidates adapter used_operations))
    ++ after_documentation original_source.

(** How many statements of the source have exactly the text [line]. *)
Definition occurrences (line : string) (src : source) : nat :=
  length (filter (fun n => text n = line) src).

(** *** Transform Orchestrator (specification, section 4.6) *)

(** Modelled from the spec: [TransformResult]. *)
Record TransformResult : Type := mkResult {
  file_path : string;
  rewritten_source : option source;
  diagnostics : list Diagnostic
}.

Definition rewrite_error (outcome : CallSite * (list node * bool + Diagnostic))
  : option Diagnostic :=
  match outcome.2 with
  | inl _ => None
  | inr d => Some d
  end.

Definition replacement (outcome : CallSite * (list node * bool + Diagnostic))
  : option (nat * list node) :=
  match outcome.2 with
  | inl (nodes, _) => Some (location outcome.1, nodes)
  | inr _ => None
  end.

(** The source with the node at each rewritten location replaced. *)
Definition apply_replacements (replacements : gmap nat (list node))
    (src : source) : source :=
  mjoin (imap (fun i n => default [n] (replacements !! i)) src).

(** Every call site with what the Rewriter made of it. *)
Definition rewrite_all (adapter : ProviderAdapter) (sites : list CallSite)
  : list (CallSite * (list node * bool + Diagnostic)) :=
  (fun site => (site, rewrite site adapter)) <$> sites.

(** The replacement nodes by location. *)
Definition replacements_of
    (outcomes : list (CallSite * (list node * bool + Diagnostic)))
  : gmap nat (list node) :=
  list_to_map (omap replacement outcomes).

(** Modelled from the spec: the pipeline of one file.  A file with an
    error-level diagnostic gets no rewritten source, only its diagnostics;
    otherwise every call site is rewritten and the preamble injected. *)
Definition process_file (adapter : ProviderAdapter) (path : string)
    (src : source) : TransformResult :=
  let (sites, scanned) := scan src path in
  if existsb is_error scanned then mkResult path None scanned
  else
    let outcomes := rewrite_all adapter sites in
    match omap rewrite_error outcomes with
    | [] =>
        let rewritten := apply_replacements (replacements_of outcomes) src in
        mkResult path
          (Some (inject rewritten adapter
                   (list_to_set (operation_name <$> sites))))
          scanned
    | errors => mkResult path None (scanned ++ errors)
    end.

(** Modelled from the spec: the single top-level diagnostic of an aborted
    run, which says what the adapter leaves uncovered. *)
Definition configuration_error (gaps : list Diagnostic) : Diagnostic :=
  mkDiagnostic Error None
    ("configuration error: " +:+ String.concat "; " (message <$> gaps)).

(** Modelled from the spec: [transform(files, provider_id) ->
    TransformResult[]], each file given with the structural representation
    of its content.  The run is aborted, with no result and one diagnostic,
    when the provider is unknown or its adapter fails validation. *)
Definition transform (adapters : gmap string ProviderAdapter)
    (files : list (string * source)) (provider : string)
  : list TransformResult * list Diagnostic :=
  match adapter_for adapters provider with
  | None =>
      ([], [mkDiagnostic Error None ("unknown provider " +:+ provider)])
  | Some adapter =>
      match validate adapter registry with
      | [] => ((fun f => process_file adapter f.1 f.2) <$> files, [])
      | gaps => ([], [configuration_error gaps])
      end
  end.

End Transformer.

(** ** Inputs used in the examples *)

Module Examples.
Import Transformer.

(** An adapter in the shape of the AWS mapping the docstrings announce
    ([boto3.client('s3').upload_file()] and so on); upload takes its three
    arguments in another order than the agnostic call. *)
Definition s3_templates : list (string * NativeCallTemplate) :=
  [("upload",
    mkTemplate ["s3"; "upload_file"]
      [("source", NativeParam None); ("bucket", NativeParam None);
       ("destination", NativeParam None)] true);
   ("download",
    mkTemplate ["s3"; "download_file"]
      [("bucket", NativeParam None); ("source", NativeParam None);
       ("destination", NativeParam None)] true);
   ("delete",
    mkTemplate ["s3"; "delete_object"]
      [("bucket", NativeParam (Some "Bucket"));
       ("path", NativeParam (Some "Key"))] true);
   ("list_objects",
    mkTemplate ["s3"; "list_objects_v2"]
      [("bucket", NativeParam (Some "Bucket"));
       ("prefix", NativeParam (Some "Prefix"))] true)].

Definition aws : ProviderAdapter :=
  mkAdapter "aws" (list_to_map s3_templates)
    ["import boto3"] "s3 = boto3.client('s3')".

(** The same adapter without its mapping for delete. *)
Definition aws_without_delete : ProviderAdapter :=
  mkAdapter "aws" (delete "delete" (list_to_map s3_templates))
    ["import boto3"] "s3 = boto3.client('s3')".

(** [examples/simple_upload.py], reduced to its import and its call. *)
Definition simple_upload : source :=
  [Documentation "Simple file upload example using Infrar SDK.";
   FromImport [("upload", "upload")];
   Invocation ["upload"]
     [mkArgument (Some "bucket") (Literal "'analytics-reports'");
      mkArgument (Some "source") (Literal "'monthly-report.csv'");
      mkArgument (Some "destination")
        (Literal "'reports/2024/october/monthly-report.csv'")];
   Statement "print('File uploaded successfully!')"].

(** [simple_upload] as rewritten for [aws]. *)
Definition simple_upload_for_aws : source :=
  [Documentation "Simple file upload example using Infrar SDK.";
   Statement "import boto3";
   Statement "s3 = boto3.client('s3')";
   FromImport [("upload", "upload")];
   Invocation ["s3"; "upload_file"]
     [mkArgument None (Literal "'monthly-report.csv'");
      mkArgument None (Literal "'analytics-reports'");
      mkArgument None (Literal "'reports/2024/october/monthly-report.csv'")];
   Statement "print('File uploaded successfully!')"].

End Examples.

(** * Properties of the call surface *)

Module SurfaceFacts.
Import storage Call.

Lemma run_raises (op : operation) (locals : list value) (w : World) :
  run op locals w = (Raises (NotImplementedError transformed_away), w).
Proof. destruct op; reflexivity. Qed.

Lemma call_unfold (op : operation) args kwargs (w : World) :
  call op args kwargs w =
    match bind_arguments (name op) (signature op) args kwargs with
    | inl e => (Raises (TypeError e), w)
    | inr _ => (Raises (NotImplementedError transformed_away), w)
    end.
Proof.
  unfold call. destruct (bind_arguments _ _ _ _) as [e|locals].
  - reflexivity.
  - apply run_raises.
Qed.

(** C1: every operation of the call surface fails unconditionally.  Whatever
    values its parameters hold and whatever the world looks like, the body
    raises [NotImplementedError]; a call never returns normally, and a call
    whose arguments bind to the parameters ends in that [NotImplementedError]
    (one whose arguments do not bind is refused with a [TypeError] before the
    body runs). *)
Theorem operations_always_raise :
  forall (op : operation) (w : World),
    (forall locals : list value,
        result_of (run op locals w)
          = Raises (NotImplementedError transformed_away)
        /\ returns_normally (run op locals w) = false)
    /\ (forall args kwargs,
        returns_normally (call op args kwargs w) = false
        /\ (well_formed op args kwargs = true ->
            result_of (call op args kwargs w)
              = Raises (NotImplementedError transformed_away))).
Proof.
  intros op w. split.
  - intros locals. unfold returns_normally. rewrite run_raises. done.
  - intros args kwargs. unfold returns_normally, well_formed.
    rewrite call_unfold.
    destruct (bind_arguments _ _ _ _); done.
Qed.

Example upload_test_raises :
  result_of (call Upload []
      [("bucket", VStr "test"); ("source", VStr "file.txt");
       ("destination", VStr "dest.txt")] (mkWorld ∅ ∅ []))
    = Raises (NotImplementedError transformed_away).
Proof. reflexivity. Qed.

Example list_objects_test_raises :
  result_of (call ListObjects [] [("bucket", VStr "test")] (mkWorld ∅ ∅ []))
    = Raises (NotImplementedError transformed_away).
Proof. reflexivity. Qed.

(** C2: the module exports exactly the Registry's four operation names.  Its
    [__all__] is the list of the Registry's names, as a set it is the
    four-element set of upload, download, delete and list_objects, and every
    exported name is bound in the module to the function of that name; the
    functions the module binds are the exported ones. *)
Theorem exports_are_the_registry_operations :
  __all__ = Transformer.registry_names
  /\ (list_to_set __all__ : gset string)
       = {[ "upload"; "download"; "delete"; "list_objects" ]}
  /\ NoDup __all__
  /\ length __all__ = 4
  /\ namespace !! "__all__" = Some (Names __all__)
  /\ Forall (fun n => exists op, namespace !! n = Some (Function op)
                                 /\ is_function (Function op) = true
                                 /\ name op = n) __all__
  /\ (filter (fun b => is_function b.2 = true) bindings).*1 = __all__.
Proof.
  split_and!; try reflexivity.
  - apply (bool_decide_unpack _). reflexivity.
  - repeat constructor; eexists; split_and!; reflexivity.
Qed.

(** Binding every parameter by keyword, in the order of the signature. *)
Lemma keywords_bind (op : operation) (v : string -> value) :
  bind_arguments (name op) (signature op) [] (all_keywords op v)
    = inr (v <$> param_names op).
Proof. destruct op; reflexivity. Qed.

(** The order in which the keywords are written does not matter. *)
Lemma keywords_bind_any_order (op : operation) (v : string -> value) kwargs :
  kwargs ≡ₚ all_keywords op v ->
  bind_arguments (name op) (signature op) [] kwargs
    = inr (v <$> param_names op).
Proof.
  intros H. symmetry in H.
  apply permutations_Permutation, list_elem_of_In in H.
  destruct op; vm_compute in H;
    repeat (destruct H as [<-|H]; [reflexivity|]); destruct H.
Qed.

Lemma param_index_unknown params kw :
  kw ∉ param_name <$> params -> param_index params kw = None.
Proof.
  induction params as [|p ps IH]; [done|].
  rewrite fmap_cons, not_elem_of_cons. intros [Hne Hrest]. simpl.
  destruct (String.eqb_spec (param_name p) kw) as [Heq|_]; [congruence|].
  by rewrite IH.
Qed.

(** A keyword that names no parameter is refused while the keywords are
    bound. *)
Lemma bind_keywords_unknown fn params kwargs slots kw :
  kw ∈ kwargs.*1 -> param_index params kw = None ->
  exists e, bind_keywords fn params kwargs slots = inl e.
Proof.
  revert slots. induction kwargs as [|[k x] rest IH]; intros slots Hin Hkw.
  - by apply elem_of_nil in Hin.
  - simpl in *. destruct (param_index params k) as [j|] eqn:Hk; [|by eexists].
    destruct (slots !! j) as [[?|]|]; [by eexists| |];
      (apply IH; [|done]; apply elem_of_cons in Hin as [->|]; [congruence|done]).
Qed.


(** C4: the outcome of an operation depends neither on the environment nor on
    the arguments.  Two runs of the body of one operation, on any parameter
    values and in any two worlds (whatever their environment variables), end
    in the same [NotImplementedError] with the same message text, and so do
    any two well-formed calls; a call's outcome never depends on the world. *)
Theorem outcome_ignores_environment :
  forall (op : operation),
    (forall (locals1 locals2 : list value) (w1 w2 : World),
        result_of (run op locals1 w1) = result_of (run op locals2 w2)
        /\ result_of (run op locals1 w1)
             = Raises (NotImplementedError
                 "This function is transformed at deployment time. For local development, set INFRAR_PROVIDER environment variable or install provider-specific extras: pip install infrar[aws]"))
    /\ (forall args kwargs (w1 w2 : World),
          result_of (call op args kwargs w1)
            = result_of (call op args kwargs w2))
    /\ (forall args1 kwargs1 args2 kwargs2 (w1 w2 : World),
          well_formed op args1 kwargs1 = true ->
          well_formed op args2 kwargs2 = true ->
          result_of (call op args1 kwargs1 w1)
            = result_of (call op args2 kwargs2 w2)).
Proof.
  intros op. split_and!.
  - intros. rewrite !run_raises. done.
  - intros. rewrite !call_unfold. destruct (bind_arguments _ _ _ _); done.
  - unfold well_formed. intros args1 kwargs1 args2 kwargs2 w1 w2.
    rewrite !call_unfold.
    do 2 destruct (bind_arguments _ _ _ _); done.
Qed.

Example outcome_same_with_and_without_provider :
  result_of (call Upload [VStr "b"; VStr "s"; VStr "d"] []
               (mkWorld {[ "INFRAR_PROVIDER" := "aws" ]} ∅ []))
    = result_of (call Upload [] (all_keywords Upload (fun _ => VInt 7))
               (mkWorld ∅ ∅ [])).
Proof. reflexivity. Qed.

(** C5: an operation raises without looking at its arguments and without any
    effect.  The body gives the same result on any two sets of parameter
    values, of any type; it leaves the world as it found it and ends in the
    [NotImplementedError]; a call, well formed or not, changes nothing. *)
Theorem operations_have_no_side_effect :
  forall (op : operation) (w : World),
    (forall locals1 locals2 : list value,
        run op locals1 w = run op locals2 w)
    /\ (forall locals : list value,
          run op locals w
            = (Raises (NotImplementedError transformed_away), w)
          /\ world_after (run op locals w) = w)
    /\ (forall args kwargs, world_after (call op args kwargs w) = w).
Proof.
  intros op w. split_and!.
  - intros. rewrite !run_raises. done.
  - intros. rewrite run_raises. done.
  - intros. rewrite call_unfold. destruct (bind_arguments _ _ _ _); done.
Qed.

Example upload_ill_typed_arguments (w : World) :
  call Upload [VInt 3; VNone] [("destination", VList [VBool true])] w
    = (Raises (NotImplementedError transformed_away), w).
Proof. reflexivity. Qed.

(** *** Who fills a parameter's slot *)

Lemma param_index_lookup params kw i :
  param_index params kw = Some i ->
  exists p, params !! i = Some p /\ param_name p = kw.
Proof.
  revert i. induction params as [|p ps IH]; intros i; simpl; [done|].
  destruct (String.eqb_spec (param_name p) kw) as [Heq|Hne].
  - intros [= <-]. eauto.
  - destruct (param_index ps kw) as [j|] eqn:Hj; simpl; [|done].
    intros [= <-]. apply (IH j). reflexivity.
Qed.

Lemma positional_slots_length params args :
  length (positional_slots params args) = length params.
Proof.
  unfold positional_slots.
  rewrite length_app, length_fmap, length_take, length_replicate. lia.
Qed.

Lemma positional_slots_filled params args i v :
  positional_slots params args !! i = Some (Some v) -> i < length args.
Proof.
  unfold positional_slots. intros H.
  apply lookup_app_Some in H as [H|[_ H]].
  - apply lookup_lt_Some in H.
    rewrite length_fmap, length_take in H. lia.
  - apply lookup_replicate in H as [? _]. done.
Qed.

Lemma bind_keywords_length fn params kwargs slots slots' :
  bind_keywords fn params kwargs slots = inr slots' ->
  length slots' = length slots.
Proof.
  revert slots. induction kwargs as [|[kw v] rest IH]; intros slots; simpl.
  - by intros [= <-].
  - destruct (param_index params kw) as [i|]; [|done].
    destruct (slots !! i) as [[?|]|]; [done| |];
      intros H; apply IH in H; by rewrite length_insert in H.
Qed.

Lemma bind_keywords_filled fn params kwargs slots slots' i v :
  bind_keywords fn params kwargs slots = inr slots' ->
  slots' !! i = Some (Some v) ->
  (exists v0, slots !! i = Some (Some v0))
  \/ exists kw, kw ∈ kwargs.*1 /\ param_index params kw = Some i.
Proof.
  revert slots. induction kwargs as [|[kw x] rest IH]; intros slots; simpl.
  - intros [= <-] H. eauto.
  - destruct (param_index params kw) as [j|] eqn:Hj; [|done].
    assert (forall s, bind_keywords fn params rest (<[j:=Some x]> s) = inr slots'
              -> slots' !! i = Some (Some v)
              -> (exists v0, s !! i = Some (Some v0))
                 \/ exists kw0, kw0 ∈ kw :: rest.*1
                                /\ param_index params kw0 = Some i) as Hstep.
    { intros s Hb Hi. destruct (IH _ Hb Hi) as [[v0 Hv0]|[kw0 [Hin Hk]]].
      - destruct (decide (j = i)) as [->|Hne].
        + right. exists kw. split; [apply list_elem_of_here|done].
        + rewrite list_lookup_insert_ne in Hv0 by done. eauto.
      - right. exists kw0. split; [by apply list_elem_of_further|done]. }
    destruct (slots !! j) as [[?|]|]; [done| |]; apply Hstep.
Qed.

(** A call that binds supplied every parameter that has no default. *)
Lemma required_parameter_supplied fn params args kwargs locals i p :
  bind_arguments fn params args kwargs = inr locals ->
  params !! i = Some p ->
  param_default p = None ->
  supplied args kwargs i p.
Proof.
  unfold bind_arguments, supplied. intros Hbind Hp Hdef.
  destruct (bind_keywords fn params kwargs (positional_slots params args))
    as [?|slots] eqn:Hkw; [done|].
  destruct (decide (length params < length args)); [done|].
  destruct (missing_of (zip_with default_or_missing params slots))
    eqn:Hmiss; [|done].
  assert (length slots = length params) as Hlen.
  { rewrite (bind_keywords_length _ _ _ _ _ Hkw).
    apply positional_slots_length. }
  destruct (lookup_lt_is_Some_2 slots i) as [slot Hslot].
  { rewrite Hlen. by eapply lookup_lt_Some. }
  destruct slot as [v|].
  - destruct (bind_keywords_filled _ _ _ _ _ _ _ Hkw Hslot)
      as [[v0 Hv0]|[kw [Hin Hk]]].
    + left. by eapply positional_slots_filled.
    + right. apply param_index_lookup in Hk as [p' [Hp' <-]].
      by simplify_eq.
  - exfalso.
    assert (inl (param_name p)
              ∈ zip_with default_or_missing params slots) as Hin.
    { apply list_elem_of_lookup. exists i.
      rewrite lookup_zip_with, Hp. simpl. rewrite Hslot. simpl.
      unfold default_or_missing. by rewrite Hdef. }
    assert (param_name p ∈ missing_of
              (zip_with default_or_missing params slots)) as Hm.
    { unfold missing_of. apply list_elem_of_omap. eauto. }
    rewrite Hmiss in Hm. by apply elem_of_nil in Hm.
Qed.

(** C6: the prefix of list_objects is optional and defaults to the empty
    string: list_objects(bucket=b) binds the same parameter values as
    list_objects(bucket=b, prefix='') and behaves the same; upload, download
    and delete have no optional parameter, so a call of one of them is well
    formed only if it supplies every parameter, and is refused otherwise. *)
Theorem only_prefix_is_optional :
  param_default <$> signature ListObjects = [None; Some (VStr "")]
  /\ (forall b : value,
        bind_arguments "list_objects" (signature ListObjects) []
          [("bucket", b)] = inr [b; VStr ""]
        /\ bind_arguments "list_objects" (signature ListObjects) []
             [("bucket", b)]
           = bind_arguments "list_objects" (signature ListObjects) []
               [("bucket", b); ("prefix", VStr "")])
  /\ (forall (b : value) (w : World),
        call ListObjects [] [("bucket", b)] w
          = call ListObjects [] [("bucket", b); ("prefix", VStr "")] w)
  /\ Forall (fun op =>
        Forall (fun p => param_default p = None) (signature op)
        /\ forall args kwargs i p,
            signature op !! i = Some p ->
            (well_formed op args kwargs = true -> supplied args kwargs i p)
            /\ (~ supplied args kwargs i p ->
                forall w, exists e,
                  result_of (call op args kwargs w) = Raises (TypeError e)))
       [Upload; Download; Delete].
Proof.
  split_and!; try done.
  assert (forall op, Forall (fun p => param_default p = None) (signature op) ->
    forall args kwargs i p, signature op !! i = Some p ->
      (well_formed op args kwargs = true -> supplied args kwargs i p)
      /\ (~ supplied args kwargs i p ->
          forall w, exists e,
            result_of (call op args kwargs w) = Raises (TypeError e))) as H.
  { intros op Hall args kwargs i p Hp.
    assert (param_default p = None) as Hdef.
    { rewrite Forall_forall in Hall. apply Hall.
      apply list_elem_of_lookup. eauto. }
    unfold well_formed. split.
    - destruct (bind_arguments _ _ _ _) eqn:Hb; [done|].
      intros _. by eapply required_parameter_supplied.
    - intros Hns w. rewrite call_unfold.
      destruct (bind_arguments _ _ _ _) eqn:Hb; [by eexists|].
      destruct Hns. by eapply required_parameter_supplied. }
  assert (forall op, In op [Upload; Download; Delete] ->
    Forall (fun p => param_default p = None) (signature op)) as Hnone.
  { intros op [<-|[<-|[<-|[]]]]; repeat constructor. }
  repeat (apply Forall_cons; split; [split; [|apply H]; apply Hnone; simpl; tauto|]).
  apply Forall_nil_2.
Qed.

Example upload_without_destination (w : World) :
  call Upload [VStr "b"] [("source", VStr "s")] w
    = (Raises (TypeError (MissingRequired "upload" ["destination"])), w).
Proof. reflexivity. Qed.

Example list_objects_positional_bucket (b : value) :
  bind_arguments "list_objects" (signature ListObjects) [b] []
    = inr [b; VStr ""].
Proof. reflexivity. Qed.

(** Run as it is, the example script stops at its upload: nothing is
    printed and the exception reaches the caller. *)
Example simple_upload_stops_at_upload (w : World) :
  simple_upload.main w = (Raises (NotImplementedError transformed_away), w).
Proof. reflexivity. Qed.

(** Reading the environment is observable in this model: the outcome of
    [os.environ.get] differs between two worlds, unlike that of the stubs. *)
Example getenv_depends_on_the_world :
  result_of (getenv "INFRAR_PROVIDER"
               (mkWorld {[ "INFRAR_PROVIDER" := "aws" ]} ∅ []))
    <> result_of (getenv "INFRAR_PROVIDER" (mkWorld ∅ ∅ [])).
Proof. discriminate. Qed.

End SurfaceFacts.

(** * Properties of the modelled transformer *)

Module TransformerFacts.
Import Transformer.

(** *** Injector *)

Lemma documentation_split (src : source) :
  documentation_prefix src ++ after_documentation src = src.
Proof.
  induction src as [|n rest IH]; simpl; [done|].
  destruct (is_documentation n); simpl; [by rewrite IH|done].
Qed.

Lemma occurrences_app line (s1 s2 : source) :
  occurrences line (s1 ++ s2) = occurrences line s1 + occurrences line s2.
Proof. unfold occurrences. by rewrite filter_app, length_app. Qed.

Lemma occurrences_split line (src : source) :
  occurrences line (documentation_prefix src)
    + occurrences line (after_documentation src) = occurrences line src.
Proof. by rewrite <- occurrences_app, documentation_split. Qed.

Lemma occurrences_zero line (src : source) :
  line ∉ text <$> src -> occurrences line src = 0.
Proof.
  unfold occurrences. intros Hnot.
  induction src as [|n rest IH]; [done|].
  rewrite fmap_cons, not_elem_of_cons in Hnot. destruct Hnot as [Hne Hrest].
  rewrite filter_cons_False by done. by apply IH.
Qed.

Lemma occurrences_positive line (src : source) :
  line ∈ text <$> src -> 0 < occurrences line src.
Proof.
  unfold occurrences. intros Hin.
  apply list_elem_of_fmap in Hin as [n [-> Hn]].
  assert (n ∈ filter (fun m => text m = text n) src) as Hf.
  { by apply list_elem_of_filter. }
  destruct (filter _ src); [by apply elem_of_nil in Hf|simpl; lia].
Qed.

Lemma occurrences_statements line (lines : list string) :
  NoDup lines ->
  occurrences line (Statement <$> lines)
    = if decide (line ∈ lines) then 1 else 0.
Proof.
  unfold occurrences. induction 1 as [|l ls Hl Hnd IH].
  - by destruct (decide (line ∈ [])) as [Hin%elem_of_nil|].
  - rewrite fmap_cons. destruct (decide (l = line)) as [->|Hne].
    + rewrite filter_cons_True by done. simpl. rewrite IH.
      destruct (decide (line ∈ ls)); [done|].
      destruct (decide (line ∈ line :: ls)) as [|Hn]; [done|].
      destruct Hn. apply list_elem_of_here.
    + rewrite filter_cons_False by done. rewrite IH.
      destruct (decide (line ∈ ls)) as [Hin|Hnin];
        destruct (decide (line ∈ l :: ls)) as [Hin'|Hnin']; try done.
      * destruct Hnin'. by apply list_elem_of_further.
      * apply elem_of_cons in Hin' as [->|]; done.
Qed.

Lemma texts_of_inject src adapter used :
  text <$> inject src adapter used
    = (text <$> documentation_prefix src)
        ++ missing_lines src (candidates adapter used)
        ++ (text <$> after_documentation src).
Proof.
  unfold inject. rewrite !fmap_app, <- list_fmap_compose.
  by rewrite list_fmap_id.
Qed.

(** After an injection every candidate statement is present. *)
Lemma candidates_present src adapter used line :
  line ∈ candidates adapter used -> line ∈ text <$> inject src adapter used.
Proof.
  intros Hc. rewrite texts_of_inject.
  destruct (decide (line ∈ text <$> src)) as [Hin|Hnot].
  - rewrite <- (documentation_split src), fmap_app in Hin.
    apply elem_of_app in Hin as [Hin|Hin].
    + apply elem_of_app. by left.
    + apply elem_of_app. right. apply elem_of_app. by right.
  - apply elem_of_app. right. apply elem_of_app. left.
    unfold missing_lines. apply list_elem_of_filter. split; [done|].
    by apply elem_of_remove_dups.
Qed.

Lemma nothing_missing_after_inject src adapter used :
  missing_lines (inject src adapter used) (candidates adapter used) = [].
Proof.
  unfold missing_lines.
  assert (Forall (fun line => line ∈ text <$> inject src adapter used)
            (remove_dups (candidates adapter used))) as Hall.
  { apply Forall_forall. intros line Hin.
    apply candidates_present. by apply elem_of_remove_dups. }
  induction Hall as [|l ls Hl _ IH]; [done|].
  rewrite filter_cons_False; [done|]. by intros Hn.
Qed.

(** C7: the Injector is idempotent.  For every source, adapter and set of
    used operations, injecting into an already injected source changes
    nothing, so the bytes of the file are the same after the second run as
    after the first; and a run leaves every candidate statement (import or
    client construction) in the file exactly as often as it already was
    there, or once if it was absent, so no run duplicates one. *)
Theorem injection_is_idempotent :
  forall (src : source) (adapter : ProviderAdapter) (used : gset string),
    inject (inject src adapter used) adapter used = inject src adapter used
    /\ render (inject (inject src adapter used) adapter used)
         = render (inject src adapter used)
    /\ Forall (fun line =>
          occurrences line (inject src adapter used)
            = Nat.max 1 (occurrences line src)
          /\ occurrences line (inject (inject src adapter used) adapter used)
             = occurrences line (inject src adapter used))
         (candidates adapter used).
Proof.
  intros src adapter used.
  assert (inject (inject src adapter used) adapter used
            = inject src adapter used) as Hidem.
  { unfold inject at 1. rewrite nothing_missing_after_inject. simpl.
    apply documentation_split. }
  split_and!; [done|by rewrite Hidem|].
  apply Forall_forall. intros line Hline. rewrite Hidem. split; [|done].
  unfold inject. rewrite !occurrences_app.
  rewrite occurrences_statements
    by (unfold missing_lines; apply NoDup_filter, NoDup_remove_dups).
  pose proof (occurrences_split line src) as Hsplit.
  destruct (decide (line ∈ missing_lines src (candidates adapter used)))
    as [Hin|Hnin].
  - apply list_elem_of_filter in Hin as [Habsent _].
    apply occurrences_zero in Habsent. lia.
  - assert (line ∈ text <$> src) as Hpresent.
    { destruct (decide (line ∈ text <$> src)) as [|Habsent]; [done|].
      destruct Hnin. apply list_elem_of_filter. split; [done|].
      by apply elem_of_remove_dups. }
    apply occurrences_positive in Hpresent. lia.
Qed.

Example inject_into_transformed_file :
  inject Examples.simple_upload_for_aws Examples.aws {[ "upload" ]}
    = Examples.simple_upload_for_aws.
Proof. reflexivity. Qed.

Example inject_adds_what_is_missing :
  inject [Statement "import boto3"; Statement "run()"] Examples.aws
    {[ "upload" ]}
  = [Statement "s3 = boto3.client('s3')"; Statement "import boto3";
     Statement "run()"].
Proof. reflexivity. Qed.

(** *** Validation and the aborted run *)

Lemma append_assoc (a b c : string) : (a +:+ b) +:+ c = a +:+ (b +:+ c).
Proof.
  induction a as [|x a IH]; [done|].
  change (String x ((a +:+ b) +:+ c) = String x (a +:+ (b +:+ c))).
  by rewrite IH.
Qed.

Lemma append_empty (a : string) : a +:+ "" = a.
Proof.
  induction a as [|x a IH]; [done|].
  change (String x (a +:+ "") = String x a). by rewrite IH.
Qed.

(** A string of a list occurs in the list's concatenation. *)
Lemma concat_contains (sep x : string) (l : list string) :
  x ∈ l -> exists before after, String.concat sep l = before +:+ x +:+ after.
Proof.
  induction l as [|y l IH]; intros Hin; [by apply elem_of_nil in Hin|].
  apply elem_of_cons in Hin as [<-|Hin].
  - exists "". destruct l as [|z l]; simpl.
    + exists "". by rewrite append_empty.
    + by exists (sep +:+ String.concat sep (z :: l)).
  - destruct (IH Hin) as (before & after & Heq).
    destruct l as [|z l]; [by apply elem_of_nil in Hin|].
    exists (y +:+ sep +:+ before), after.
    change (String.concat sep (y :: z :: l))
      with (y +:+ sep +:+ String.concat sep (z :: l)).
    by rewrite Heq, !append_assoc.
Qed.

Lemma uncovered_operation_reported adapter (s : OperationSpec) operations :
  s ∈ operations ->
  per_operation adapter !! op_name s = None ->
  exists gap, gap ∈ validate adapter operations
    /\ exists before, message gap = before +:+ op_name s.
Proof.
  intros Hin Hnone. eexists. split.
  - unfold validate. apply list_elem_of_bind. exists s. split; [|done].
    unfold coverage_gaps. rewrite Hnone. apply list_elem_of_here.
  - simpl. rewrite <- !append_assoc. by eexists.
Qed.

(** C9: an adapter without a template for delete aborts the run.  Whatever
    the files, transform returns no TransformResult and exactly one
    diagnostic, which is an error attached to no call site (a configuration
    error) and whose message names delete. *)
Theorem missing_delete_aborts_run :
  forall (adapters : gmap string ProviderAdapter)
         (files : list (string * source)) (provider : string)
         (adapter : ProviderAdapter),
    adapter_for adapters provider = Some adapter ->
    per_operation adapter !! "delete" = None ->
    exists d : Diagnostic,
      transform adapters files provider = ([], [d])
      /\ severity d = Error
      /\ call_site d = None
      /\ names_operation "delete" d.
Proof.
  intros adapters files provider adapter Hadapter Hnone.
  destruct (uncovered_operation_reported adapter
              (spec_of storage.Delete) registry) as (gap & Hgap & pre & Hmsg).
  { unfold registry, storage.operations. rewrite !fmap_cons.
    do 2 apply list_elem_of_further. apply list_elem_of_here. }
  { exact Hnone. }
  unfold transform. rewrite Hadapter.
  destruct (validate adapter registry) as [|g gaps] eqn:Hgaps.
  { by apply elem_of_nil in Hgap. }
  exists (configuration_error (g :: gaps)). split_and!; try done.
  unfold names_operation, configuration_error. cbn [message].
  destruct (concat_contains "; " (message gap) (message <$> g :: gaps))
    as (before & after & Heq).
  { by apply list_elem_of_fmap_2. }
  rewrite Heq, Hmsg. simpl in *.
  exists ("configuration error: " +:+ before +:+ pre), after.
  by rewrite !append_assoc.
Qed.

Lemma missing_delete_aborts_run_witness :
  (adapter_for {[ "aws" := Examples.aws_without_delete ]} "aws"
     = Some Examples.aws_without_delete
   /\ per_operation Examples.aws_without_delete !! "delete" = None)
  /\ exists d : Diagnostic,
      transform {[ "aws" := Examples.aws_without_delete ]}
        [("simple_upload.py", Examples.simple_upload)] "aws" = ([], [d])
      /\ severity d = Error
      /\ call_site d = None
      /\ names_operation "delete" d.
Proof.
  split; [split; reflexivity|].
  apply (missing_delete_aborts_run _ _ "aws" Examples.aws_without_delete);
    reflexivity.
Defined.

Example run_without_delete :
  transform {[ "aws" := Examples.aws_without_delete ]}
    [("simple_upload.py", Examples.simple_upload)] "aws"
  = ([], [mkDiagnostic Error None
            "configuration error: provider aws has no native call template for operation delete"]).
Proof. reflexivity. Qed.

End TransformerFacts.

(** * Calls of the operations that mix or misplace arguments *)

Module CallFacts.
Import storage Call.


Lemma bind_keywords_twice fn params kwargs slots kw i v :
  kw ∈ kwargs.*1 -> param_index params kw = Some i ->
  slots !! i = Some (Some v) ->
  exists e, bind_keywords fn params kwargs slots = inl e.
Proof.
  revert slots. induction kwargs as [|[k x] rest IH]; intros slots Hin Hkw Hi.
  - by apply elem_of_nil in Hin.
  - simpl in *. destruct (param_index params k) as [j|] eqn:Hk; [|by eexists].
    destruct (decide (j = i)) as [->|Hne].
    + rewrite Hi. by eexists.
    + assert (kw ∈ rest.*1) as Hrest.
      { apply elem_of_cons in Hin as [->|]; [congruence|done]. }
      destruct (slots !! j) as [[?|]|]; [by eexists| |];
        (apply IH; [done|done|]; by rewrite list_lookup_insert_ne).
Qed.

Lemma positional_slot params args i v :
  args !! i = Some v -> i < length params ->
  positional_slots params args !! i = Some (Some v).
Proof.
  intros Hv Hi. unfold positional_slots. apply lookup_app_l_Some.
  rewrite list_lookup_fmap, lookup_take_lt by done. by rewrite Hv.
Qed.

(** A call that misplaces an argument never reaches the stub.  If it passes
    more positional arguments than the operation has parameters, a keyword
    the operation does not have, or a keyword for a parameter already given
    by position, it is refused with [TypeError] and the world is unchanged. *)
Theorem misplaced_arguments_are_type_errors :
  forall (op : operation) (args : list value)
         (kwargs : list (string * value)) (w : World),
    length (signature op) < length args
    \/ (exists kw, kw ∈ kwargs.*1 /\ kw ∉ param_names op)
    \/ (exists i kw, kw ∈ kwargs.*1 /\ param_names op !! i = Some kw
                     /\ i < length args) ->
    exists e, call op args kwargs w = (Raises (TypeError e), w).
Proof.
  intros op args kwargs w H. rewrite SurfaceFacts.call_unfold.
  unfold bind_arguments.
  destruct H as [Hmany|[(kw & Hin & Hunknown)|(i & kw & Hin & Hi & Hlt)]].
  - destruct (bind_keywords _ _ _ _); [by eexists|].
    rewrite decide_True by done. by eexists.
  - destruct (SurfaceFacts.bind_keywords_unknown (name op) (signature op)
                kwargs (positional_slots (signature op) args) kw Hin)
      as [e ->].
    { by apply SurfaceFacts.param_index_unknown. }
    by eexists.
  - assert (param_index (signature op) kw = Some i) as Hindex.
    { destruct op; destruct i as [|[|[|i]]]; simplify_eq/=; done. }
    destruct (lookup_lt_is_Some_2 args i Hlt) as [v Hv].
    destruct (bind_keywords_twice (name op) (signature op) kwargs
                (positional_slots (signature op) args) kw i v Hin Hindex)
      as [e ->]; [|by eexists].
    apply positional_slot; [done|].
    apply lookup_lt_Some in Hi. unfold param_names in Hi.
    by rewrite length_fmap in Hi.
Qed.

Lemma misplaced_arguments_are_type_errors_witness :
  (exists kw, kw ∈ [("bucket", VStr "temporary-data");
                    ("source", VStr "temp/processing-file.csv")].*1
              /\ kw ∉ param_names Delete)
  /\ exists e,
       call Delete []
         [("bucket", VStr "temporary-data");
          ("source", VStr "temp/processing-file.csv")] (mkWorld ∅ ∅ [])
       = (Raises (TypeError e), mkWorld ∅ ∅ []).
Proof.
  assert (exists kw, kw ∈ [("bucket", VStr "temporary-data");
                           ("source", VStr "temp/processing-file.csv")].*1
                     /\ kw ∉ param_names Delete) as H.
  { exists "source". split.
    - apply list_elem_of_further, list_elem_of_here.
    - apply (bool_decide_unpack _). reflexivity. }
  split; [exact H|].
  apply misplaced_arguments_are_type_errors. right. left. exact H.
Defined.

(** The order in which keyword arguments are written does not matter: a
    call that passes every parameter of an operation by keyword, in any
    order, binds each parameter to the value under its name and behaves as
    the call that writes them in the order of the signature. *)
Theorem keyword_order_is_irrelevant :
  forall (op : operation) (v : string -> value)
         (kwargs : list (string * value)) (w : World),
    kwargs ≡ₚ all_keywords op v ->
    bind_arguments (name op) (signature op) [] kwargs
      = inr (v <$> param_names op)
    /\ call op [] kwargs w = call op [] (all_keywords op v) w.
Proof.
  intros op v kwargs w H.
  pose proof (SurfaceFacts.keywords_bind_any_order op v kwargs H) as Hbind.
  split; [exact Hbind|].
  unfold call. by rewrite Hbind, SurfaceFacts.keywords_bind.
Qed.

Lemma keyword_order_is_irrelevant_witness :
  [("destination", VStr "dest.txt"); ("bucket", VStr "test");
   ("source", VStr "file.txt")]
    ≡ₚ all_keywords Upload
         (fun n => if String.eqb n "bucket" then VStr "test"
                   else if String.eqb n "source" then VStr "file.txt"
                   else VStr "dest.txt")
  /\ bind_arguments "upload" (signature Upload) []
       [("destination", VStr "dest.txt"); ("bucket", VStr "test");
        ("source", VStr "file.txt")]
     = inr [VStr "test"; VStr "file.txt"; VStr "dest.txt"].
Proof.
  assert ([("destination", VStr "dest.txt"); ("bucket", VStr "test");
           ("source", VStr "file.txt")]
            ≡ₚ all_keywords Upload
                 (fun n => if String.eqb n "bucket" then VStr "test"
                           else if String.eqb n "source" then VStr "file.txt"
                           else VStr "dest.txt")) as H.
  { apply (Permutation_cons_append
             [("bucket", VStr "test"); ("source", VStr "file.txt")]
             ("destination", VStr "dest.txt")). }
  split; [exact H|].
  exact (proj1 (keyword_order_is_irrelevant Upload _ _ (mkWorld ∅ ∅ []) H)).
Defined.

End CallFacts.

(** * Properties of the example scripts *)

Module ScriptFacts.
Import builtins.

(** *** Printing *)

Lemma print_spec line w : print line w = (Returns tt, with_output w [line]).
Proof. done. Qed.

Lemma with_output_nil w : with_output w [] = w.
Proof. destruct w. unfold with_output. simpl. by rewrite app_nil_r. Qed.

Lemma with_output_app w l1 l2 :
  with_output (with_output w l1) l2 = with_output w (l1 ++ l2).
Proof. unfold with_output. simpl. by rewrite app_assoc. Qed.

Lemma files_with_output w lines : files (with_output w lines) = files w.
Proof. done. Qed.

(** *** The stubs behind the imported names *)

Lemma sdk_upload bucket source destination w :
  Backend.upload Backend.sdk bucket source destination w
    = (Raises (NotImplementedError transformed_away), w).
Proof. done. Qed.

Lemma sdk_download bucket source destination w :
  Backend.download Backend.sdk bucket source destination w
    = (Raises (NotImplementedError transformed_away), w).
Proof. done. Qed.

Lemma sdk_delete bucket path w :
  Backend.delete Backend.sdk bucket path w
    = (Raises (NotImplementedError transformed_away), w).
Proof. done. Qed.

Lemma sdk_list_objects bucket prefix w :
  Backend.list_objects Backend.sdk bucket prefix w
    = (Raises (NotImplementedError transformed_away), w).
Proof. done. Qed.

(** *** [data_pipeline.py] *)

(** The pipeline stops at its first step when the download fails: the
    exception of the download is the outcome of [main], whatever
    [process_data] does and whatever the other operations are bound to, so
    nothing is processed, uploaded or listed.  As shipped the download is the
    stub: [main] prints its first line and raises [NotImplementedError]. *)
Theorem pipeline_stops_at_download :
  forall (process_data : string -> string -> Py unit) (w : World),
    (forall (imported : Backend.t) (e : exception) (w' : World),
        Backend.download imported "data-processing" "raw/input-data.csv"
          "/tmp/input-data.csv"
          (with_output w ["📥 Downloading raw data..."]) = (Raises e, w') ->
        data_pipeline.main imported process_data w = (Raises e, w'))
    /\ data_pipeline.main Backend.sdk process_data w
       = (Raises (NotImplementedError transformed_away),
          with_output w ["📥 Downloading raw data..."]).
Proof.
  intros process_data w. split; [|done].
  intros imported e w' Hdownload.
  unfold data_pipeline.main, bind at 1. rewrite print_spec.
  unfold bind at 1. by rewrite Hdownload.
Qed.

(** *** [file_backup.py] *)

Lemma first_obstacle_skip (probe : string -> exception + bool) p rest :
  probe p = inr false ->
  first_obstacle probe (p :: rest) = first_obstacle probe rest.
Proof. intros Hp. unfold first_obstacle. simpl. by rewrite Hp. Qed.

Lemma first_obstacle_here (probe : string -> exception + bool) p rest :
  probe p <> inr false -> first_obstacle probe (p :: rest) = Some p.
Proof.
  intros Hp. unfold first_obstacle. simpl.
  by destruct (probe p) as [e|[]].
Qed.

Lemma first_obstacle_none (probe : string -> exception + bool) paths :
  first_obstacle probe paths = None
  <-> Forall (fun p => probe p = inr false) paths.
Proof.
  induction paths as [|p rest IH]; [done|].
  rewrite Forall_cons.
  destruct (probe p) as [e|[]] eqn:Hp.
  - rewrite first_obstacle_here by congruence. split; [done|by intros [? _]].
  - rewrite first_obstacle_here by congruence. split; [done|by intros [? _]].
  - rewrite first_obstacle_skip by done. tauto.
Qed.

Lemma first_obstacle_some (probe : string -> exception + bool) paths p :
  first_obstacle probe paths = Some p ->
  p ∈ paths /\ probe p <> inr false.
Proof.
  induction paths as [|q rest IH]; [done|].
  destruct (probe q) as [e|[]] eqn:Hq.
  - rewrite first_obstacle_here by congruence. intros [= <-].
    split; [apply list_elem_of_here|congruence].
  - rewrite first_obstacle_here by congruence. intros [= <-].
    split; [apply list_elem_of_here|congruence].
  - rewrite first_obstacle_skip by done. intros [Hin Hp]%IH.
    split; [by apply list_elem_of_further|done].
Qed.

Lemma missing_prefix_missing (probe : string -> exception + bool) paths :
  Forall (fun q => probe q = inr false) (missing_prefix probe paths).
Proof.
  induction paths as [|p rest IH]; [done|]. simpl.
  destruct (probe p) as [e|[]] eqn:Hp; [done..|]. by constructor.
Qed.

Section Shipped.
Variables (path_exists : gmap string string -> string -> exception + bool)
          (path_name : string -> string) (timestamp bucket : string).

Lemma backup_loop_shipped (files_to_backup : list string) (w : World) :
  for_each files_to_backup (fun file_path =>
    bind (file_backup.exists_ path_exists file_path) (fun found =>
    if negb found
    then print ("⚠️  Skipping " +:+ file_path +:+ " (not found)")
    else
      let backup_path :=
        "backups/" +:+ timestamp +:+ "/" +:+ path_name file_path in
      bind (Backend.upload Backend.sdk bucket file_path backup_path) (fun _ =>
      print ("✅ Backed up: " +:+ path_name file_path +:+ " → "
               +:+ backup_path)))) w
  = (match first_obstacle (path_exists (files w)) files_to_backup with
     | None => Returns tt
     | Some p => Raises (stopped_by (path_exists (files w)) p)
     end,
     with_output w
       ((fun p => "⚠️  Skipping " +:+ p +:+ " (not found)")
          <$> missing_prefix (path_exists (files w)) files_to_backup)).
Proof.
  revert w. induction files_to_backup as [|p rest IH]; intros w.
  - simpl. by rewrite with_output_nil.
  - cbn [for_each missing_prefix]. unfold bind at 1.
    unfold bind at 1. unfold file_backup.exists_ at 1.
    destruct (path_exists (files w) p) as [e|[]] eqn:Hp.
    + rewrite first_obstacle_here by congruence.
      unfold stopped_by. by rewrite Hp, with_output_nil.
    + rewrite first_obstacle_here by congruence. cbn [negb].
      unfold bind at 1. rewrite sdk_upload.
      unfold stopped_by. by rewrite Hp, with_output_nil.
    + rewrite first_obstacle_skip by done. cbn [negb].
      rewrite print_spec, IH, files_with_output, with_output_app. done.
Qed.

End Shipped.

(** As shipped, [backup_files] gets as far as the first file that exists or
    cannot be examined.  It prints its first line and a line for every file
    found missing before that one.  If all the files are found missing it
    returns; otherwise it ends in the exception of the examination of that
    file or, if the file exists, in the [NotImplementedError] of its upload.
    No file is touched. *)
Theorem backup_files_stops_at_first_obstacle :
  forall (path_exists : gmap string string -> string -> exception + bool)
         (path_name : string -> string) (timestamp : string)
         (files_to_backup : list string) (bucket : string) (w : World),
    let probe := path_exists (files w) in
    file_backup.backup_files Backend.sdk path_exists path_name timestamp
      files_to_backup bucket w
    = (match first_obstacle probe files_to_backup with
       | None => Returns tt
       | Some p =>
           Raises (match probe p with
                   | inl e => e
                   | inr _ => NotImplementedError transformed_away
                   end)
       end,
       with_output w
         (("🔄 Starting backup at " +:+ timestamp +:+ "...")
            :: ((fun p => "⚠️  Skipping " +:+ p +:+ " (not found)")
                  <$> missing_prefix probe files_to_backup)))
    /\ (first_obstacle probe files_to_backup = None
        <-> Forall (fun p => probe p = inr false) files_to_backup)
    /\ (forall p, first_obstacle probe files_to_backup = Some p ->
          p ∈ files_to_backup /\ probe p <> inr false
          /\ Forall (fun q => probe q = inr false)
               (missing_prefix probe files_to_backup))
    /\ files (snd (file_backup.backup_files Backend.sdk path_exists path_name
                     timestamp files_to_backup bucket w)) = files w.
Proof.
  intros path_exists path_name timestamp files_to_backup bucket w probe.
  assert (file_backup.backup_files Backend.sdk path_exists path_name timestamp
            files_to_backup bucket w
    = (match first_obstacle probe files_to_backup with
       | None => Returns tt
       | Some p => Raises (stopped_by probe p)
       end,
       with_output w
         (("🔄 Starting backup at " +:+ timestamp +:+ "...")
            :: ((fun p => "⚠️  Skipping " +:+ p +:+ " (not found)")
                  <$> missing_prefix probe files_to_backup)))) as Hrun.
  { unfold file_backup.backup_files. unfold bind at 1.
    rewrite print_spec, backup_loop_shipped, files_with_output.
    by rewrite with_output_app. }
  split_and!.
  - exact Hrun.
  - apply first_obstacle_none.
  - intros p Hp. destruct (first_obstacle_some probe _ p Hp) as [Hin Hne].
    split_and!; [done..|]. apply missing_prefix_missing.
  - by rewrite Hrun.
Qed.

(** As shipped, [main] of the backup script never completes.  It stops in
    [backup_files] at the first of its three files that exists or cannot be
    examined, with the exception of the examination or the
    [NotImplementedError] of the upload; if all three are found missing it
    prints the heading of the listing and [list_backups] raises the
    [NotImplementedError].  Nothing is listed, deleted or cleaned up, and the
    files are as they were. *)
Theorem backup_main_never_completes :
  forall (path_exists : gmap string string -> string -> exception + bool)
         (path_name : string -> string) (timestamp : string) (w : World),
    let paths :=
      ["/etc/config.json"; "/var/log/app.log"; "/data/important-data.csv"] in
    let probe := path_exists (files w) in
    file_backup.main Backend.sdk path_exists path_name timestamp w
    = (Raises (match first_obstacle probe paths with
               | Some p =>
                   match probe p with
                   | inl e => e
                   | inr _ => NotImplementedError transformed_away
                   end
               | None => NotImplementedError transformed_away
               end),
       with_output w
         (("🔄 Starting backup at " +:+ timestamp +:+ "...")
            :: ((fun p => "⚠️  Skipping " +:+ p +:+ " (not found)")
                  <$> missing_prefix probe paths)
            ++ match first_obstacle probe paths with
               | Some _ => []
               | None => [nl +:+ "📋 Current backups:"]
               end))
    /\ (first_obstacle probe paths = None
        <-> Forall (fun p => probe p = inr false) paths)
    /\ (forall p, first_obstacle probe paths = Some p ->
          p ∈ paths /\ probe p <> inr false)
    /\ returns_normally
         (file_backup.main Backend.sdk path_exists path_name timestamp w)
       = false
    /\ files (snd (file_backup.main Backend.sdk path_exists path_name
                     timestamp w)) = files w.
Proof.
  intros path_exists path_name timestamp w paths probe.
  assert (file_backup.main Backend.sdk path_exists path_name timestamp w
    = (Raises (match first_obstacle probe paths with
               | Some p => stopped_by probe p
               | None => NotImplementedError transformed_away
               end),
       with_output w
         (("🔄 Starting backup at " +:+ timestamp +:+ "...")
            :: ((fun p => "⚠️  Skipping " +:+ p +:+ " (not found)")
                  <$> missing_prefix probe paths)
            ++ match first_obstacle probe paths with
               | Some _ => []
               | None => [nl +:+ "📋 Current backups:"]
               end))) as Hmain.
  { unfold file_backup.main, file_backup.backup_files.
    unfold bind at 1. unfold bind at 1.
    rewrite print_spec, backup_loop_shipped, files_with_output.
    fold paths. fold probe.
    destruct (first_obstacle probe paths) as [p|].
    - rewrite with_output_app, app_nil_r. done.
    - unfold bind at 1. rewrite print_spec. unfold bind at 1.
      unfold file_backup.list_backups. rewrite sdk_list_objects.
      rewrite !with_output_app. done. }
  split_and!.
  - exact Hmain.
  - apply first_obstacle_none.
  - apply first_obstacle_some.
  - unfold returns_normally. by rewrite Hmain.
  - by rewrite Hmain.
Qed.

(** *** Loops *)

Lemma for_each_ext {A} (items : list A) (f g : A -> Py unit) w :
  (forall x w', f x w' = g x w') -> for_each items f w = for_each items g w.
Proof.
  intros Hfg. revert w. induction items as [|x rest IH]; intros w; [done|].
  simpl. unfold bind. rewrite Hfg.
  destruct (g x w) as [[[]|e] w']; [apply IH|done].
Qed.

Lemma for_each_app {A} (l1 l2 : list A) (f : A -> Py unit) w :
  for_each (l1 ++ l2) f w = bind (for_each l1 f) (fun _ => for_each l2 f) w.
Proof.
  revert w. induction l1 as [|x rest IH]; intros w; [done|].
  cbn [app for_each]. unfold bind.
  destruct (f x w) as [[[]|e] w']; [|done]. rewrite IH. done.
Qed.

(** A loop in a loop runs the body on the picked items one after another. *)
Lemma for_each_nested {A B} (items : list A) (pick : A -> list B)
    (body : B -> Py unit) w :
  for_each items (fun x => for_each (pick x) body) w
    = for_each (items ≫= pick) body w.
Proof.
  revert w. induction items as [|x rest IH]; intros w; [done|].
  cbn [for_each]. change ((x :: rest) ≫= pick) with (pick x ++ (rest ≫= pick)).
  rewrite for_each_app. unfold bind.
  destruct (for_each (pick x) body w) as [[[]|e] w']; [apply IH|done].
Qed.

Lemma for_each_guarded {A} (guard : bool) (x : A) (body : A -> Py unit) w :
  (if guard then body x else ret tt) w
    = for_each (if guard then [x] else []) body w.
Proof.
  destruct guard; [|done]. simpl. unfold bind.
  by destruct (body x w) as [[[]|e] w'].
Qed.

(** *** [cleanup_old_backups] *)

Lemma sorted_timestamps_length (timestamps : gset string) :
  length (sorted_reverse (elements timestamps)) = size timestamps.
Proof.
  unfold sorted_reverse. by rewrite merge_sort_Permutation.
Qed.

(** The run over a list of the function's own. *)
Lemma cleanup_unfolded (imported : Backend.t) (bucket : string)
    (keep_latest : Z) (w : World) :
  file_backup.cleanup_old_backups imported bucket keep_latest w
  = match Backend.list_objects imported bucket "backups/" w with
    | (Raises e, w') => (Raises e, w')
    | (Returns all_backups, w') =>
        let known := size (file_backup.timestamps_of all_backups) in
        let old := old_timestamps all_backups keep_latest in
        if (Z.of_nat known <=? keep_latest)%Z
        then
          (Returns tt,
           with_output w'
             ["📦 Only " +:+ str known
                +:+ " backup(s) exist, nothing to clean up"])
        else
          for_each (deletions all_backups old)
            (fun backup =>
               bind (Backend.delete imported bucket backup) (fun _ =>
               print ("  Deleted: " +:+ backup)))
            (with_output w'
               ["🗑️  Cleaning up " +:+ str (length old)
                  +:+ " old backup(s)..."])
    end.
Proof.
  unfold file_backup.cleanup_old_backups, file_backup.list_backups.
  unfold bind at 1.
  destruct (Backend.list_objects imported bucket "backups/" w)
    as [[all_backups|e] w']; [|done].
  cbv zeta. rewrite sorted_timestamps_length.
  destruct (Z.of_nat (size (file_backup.timestamps_of all_backups))
              <=? keep_latest)%Z; [done|].
  unfold bind at 1. rewrite print_spec.
  fold (old_timestamps all_backups keep_latest).
  unfold deletions. rewrite <- for_each_nested.
  apply for_each_ext. intros backup w1.
  rewrite <- for_each_nested. apply for_each_ext. intros old_ts w2.
  apply (for_each_guarded _ backup
           (fun backup =>
              bind (Backend.delete imported bucket backup) (fun _ =>
              print ("  Deleted: " +:+ backup)))).
Qed.

(** *** Loops over a list the operations can reach *)

Lemma for_each_keeping_unchanged {A} (xs : list A)
    (body : A -> list string -> Py (list string)) (body' : A -> Py unit)
    (items : list string) :
  (forall x w, body x items w = bind (body' x) (fun _ => ret items) w) ->
  forall w,
    Shared.for_each_keeping xs body items w
      = bind (for_each xs body') (fun _ => ret items) w.
Proof.
  intros Hbody. induction xs as [|x rest IH]; intros w; [done|].
  cbn [Shared.for_each_keeping for_each]. unfold bind at 1.
  rewrite Hbody. unfold bind at 1 2 3.
  destruct (body' x w) as [[[]|e] w1]; [|done]. apply IH.
Qed.

Lemma for_each_shared_unchanged
    (body : string -> list string -> Py (list string))
    (body' : string -> Py unit) (items : list string) :
  (forall x w, body x items w = bind (body' x) (fun _ => ret items) w) ->
  forall (fuel position : nat) (w : World),
    length items - position < fuel ->
    Shared.for_each_shared fuel position body items w
      = Some (for_each (drop position items) body' w).
Proof.
  intros Hbody. induction fuel as [|fuel IH]; intros position w Hfuel; [lia|].
  cbn [Shared.for_each_shared].
  destruct (items !! position) as [x|] eqn:Hx.
  - rewrite (drop_S _ _ _ Hx). cbn [for_each].
    unfold Shared.and_then. rewrite Hbody. unfold bind.
    destruct (body' x w) as [[[]|e] w1]; [|done].
    apply IH. apply lookup_lt_Some in Hx. lia.
  - apply lookup_ge_None in Hx. by rewrite drop_ge.
Qed.

(** The second loop of [cleanup_old_backups], when [delete] leaves the list
    alone: the paths of [deletions] are deleted in order. *)
Lemma second_loop_unchanged (imported : Shared.t) (bucket : string)
    (old all_backups : list string) (fuel : nat) (w : World) :
  leaves_listing imported ->
  length all_backups < fuel ->
  Shared.for_each_shared fuel 0 (fun backup =>
    Shared.for_each_keeping old (fun old_ts items =>
      if contains ("backups/" +:+ old_ts +:+ "/") backup
      then
        bind (Shared.delete imported bucket backup items) (fun items' =>
        bind (print ("  Deleted: " +:+ backup)) (fun _ => ret items'))
      else ret items)) all_backups w
  = Some (for_each (deletions all_backups old)
            (fun backup =>
               bind (Shared.delete imported bucket backup all_backups)
                 (fun _ => print ("  Deleted: " +:+ backup))) w).
Proof.
  intros Hleaves Hfuel.
  rewrite (for_each_shared_unchanged _
             (fun backup =>
                for_each old (fun old_ts =>
                  if contains ("backups/" +:+ old_ts +:+ "/") backup
                  then
                    bind (Shared.delete imported bucket backup all_backups)
                      (fun _ => print ("  Deleted: " +:+ backup))
                  else ret tt))); [|clear w|lia].
  - f_equal. rewrite drop_0. unfold deletions. rewrite <- for_each_nested.
    apply for_each_ext. intros backup w1.
    rewrite <- for_each_nested. apply for_each_ext. intros old_ts w2.
    apply (for_each_guarded _ backup
             (fun backup =>
                bind (Shared.delete imported bucket backup all_backups)
                  (fun _ => print ("  Deleted: " +:+ backup)))).
  - intros backup w1. apply for_each_keeping_unchanged. intros old_ts w2.
    destruct (contains _ backup); [|done]. unfold bind.
    destruct (Shared.delete imported bucket backup all_backups w2)
      as [[items'|e] w3] eqn:Hdelete; [|done].
    by rewrite (Hleaves _ _ _ _ _ _ Hdelete).
Qed.

(** What [cleanup_old_backups] does with operations whose [delete] leaves
    the list that [list_objects] returned as it is.  It lists the backups
    once and fails if that fails.  When the listing has at most
    [keep_latest] distinct timestamps it prints one line and deletes
    nothing.  Otherwise it prints the number of old timestamps and then, for
    the paths of [deletions] in order, deletes the path and prints a line,
    until a deletion fails.  With the stubs as shipped it fails at the
    listing, before it prints. *)
Theorem cleanup_lists_then_deletes :
  forall (imported : Shared.t) (bucket : string) (keep_latest : Z)
         (w : World) (fuel : nat),
    leaves_listing imported ->
    (forall all_backups w',
        Shared.list_objects imported bucket "backups/" w
          = (Returns all_backups, w') ->
        length all_backups < fuel) ->
    Shared.cleanup_old_backups imported fuel bucket keep_latest w
    = Some
        match Shared.list_objects imported bucket "backups/" w with
        | (Raises e, w') => (Raises e, w')
        | (Returns all_backups, w') =>
            let known := size (file_backup.timestamps_of all_backups) in
            let old := old_timestamps all_backups keep_latest in
            if (Z.of_nat known <=? keep_latest)%Z
            then
              (Returns tt,
               with_output w'
                 ["📦 Only " +:+ str known
                    +:+ " backup(s) exist, nothing to clean up"])
            else
              for_each (deletions all_backups old)
                (fun backup =>
                   bind (Shared.delete imported bucket backup all_backups)
                     (fun _ => print ("  Deleted: " +:+ backup)))
                (with_output w'
                   ["🗑️  Cleaning up " +:+ str (length old)
                      +:+ " old backup(s)..."])
        end
    /\ Shared.cleanup_old_backups (Shared.of_backend Backend.sdk) fuel bucket
         keep_latest w
       = Some (Raises (NotImplementedError transformed_away), w).
Proof.
  intros imported bucket keep_latest w fuel Hleaves Hfuel. split; [|done].
  unfold Shared.cleanup_old_backups, Shared.list_backups.
  unfold Shared.and_then at 1.
  destruct (Shared.list_objects imported bucket "backups/" w)
    as [[all_backups|e] w']; [|done].
  cbv zeta. rewrite sorted_timestamps_length.
  destruct (Z.of_nat (size (file_backup.timestamps_of all_backups))
              <=? keep_latest)%Z; [done|].
  unfold Shared.and_then at 1. rewrite print_spec.
  fold (old_timestamps all_backups keep_latest).
  apply second_loop_unchanged; [done|]. by apply (Hfuel all_backups w').
Qed.

Lemma cleanup_lists_then_deletes_witness :
  leaves_listing
    (Shared.mk
       (fun _ _ => ret ["backups/20240101-000000/app.log";
                        "backups/20240301-000000/app.log";
                        "backups/20240201-000000/config.json";
                        "backups/20240101-000000/config.json"])
       (fun _ _ items => ret items))
  /\ Shared.cleanup_old_backups
       (Shared.mk
          (fun _ _ => ret ["backups/20240101-000000/app.log";
                           "backups/20240301-000000/app.log";
                           "backups/20240201-000000/config.json";
                           "backups/20240101-000000/config.json"])
          (fun _ _ items => ret items))
       5 "my-backups" 2 (mkWorld ∅ ∅ [])
     = Some (Returns tt,
             mkWorld ∅ ∅
               ["🗑️  Cleaning up 1 old backup(s)...";
                "  Deleted: backups/20240101-000000/app.log";
                "  Deleted: backups/20240101-000000/config.json"]).
Proof.
  assert (leaves_listing
    (Shared.mk
       (fun _ _ => ret ["backups/20240101-000000/app.log";
                        "backups/20240301-000000/app.log";
                        "backups/20240201-000000/config.json";
                        "backups/20240101-000000/config.json"])
       (fun _ _ items => ret items))) as Hleaves.
  { intros bucket path items items' w w' Hdelete. by inversion Hdelete. }
  split; [exact Hleaves|].
  rewrite (proj1 (cleanup_lists_then_deletes _ "my-backups" 2
                    (mkWorld ∅ ∅ []) 5 Hleaves
                    ltac:(intros all_backups w' [= <- _]; simpl; lia))).
  vm_compute. reflexivity.
Defined.

(** Operations that return a list of their own fit in as operations that
    leave the list alone, and the run over the shared list is then the run
    of [file_backup.cleanup_old_backups]. *)
Lemma of_backend_leaves_listing (imported : Backend.t) :
  leaves_listing (Shared.of_backend imported).
Proof.
  intros bucket path items items' w w'. unfold Shared.of_backend, bind. simpl.
  destruct (Backend.delete imported bucket path w) as [[[]|e] w1]; [|done].
  by intros [= <- _].
Qed.

Lemma own_list_run (imported : Backend.t) (bucket : string)
    (keep_latest : Z) (w : World) (fuel : nat) :
  (forall all_backups w',
      Backend.list_objects imported bucket "backups/" w
        = (Returns all_backups, w') ->
      length all_backups < fuel) ->
  Shared.cleanup_old_backups (Shared.of_backend imported) fuel bucket
    keep_latest w
  = Some (file_backup.cleanup_old_backups imported bucket keep_latest w).
Proof.
  intros Hfuel. rewrite cleanup_unfolded.
  unfold Shared.cleanup_old_backups, Shared.list_backups.
  unfold Shared.and_then at 1.
  change (Shared.list_objects (Shared.of_backend imported))
    with (Backend.list_objects imported).
  destruct (Backend.list_objects imported bucket "backups/" w)
    as [[all_backups|e] w'] eqn:Hlist; [|done].
  cbv zeta. rewrite sorted_timestamps_length.
  destruct (Z.of_nat (size (file_backup.timestamps_of all_backups))
              <=? keep_latest)%Z; [done|].
  unfold Shared.and_then at 1. rewrite print_spec.
  fold (old_timestamps all_backups keep_latest).
  rewrite second_loop_unchanged
    by (apply of_backend_leaves_listing || by apply (Hfuel all_backups w')).
  f_equal. apply for_each_ext. intros backup w1.
  unfold Shared.of_backend, bind. simpl.
  by destruct (Backend.delete imported bucket backup w1) as [[[]|e] w2].
Qed.

(** When [delete] takes the deleted path out of the list that [list_objects]
    returned, the loop passes over the entry that moves into its place: of
    three old entries the second is never deleted. *)
Example removing_skips_an_entry :
  Shared.cleanup_old_backups
    (Shared.removing ["backups/20240101-000000/app.log";
                      "backups/20240101-000000/config.json";
                      "backups/20240101-000000/data.csv"])
    4 "my-backups" 0 (mkWorld ∅ ∅ [])
  = Some (Returns tt,
          mkWorld ∅ ∅
            ["🗑️  Cleaning up 1 old backup(s)...";
             "  Deleted: backups/20240101-000000/app.log";
             "  Deleted: backups/20240101-000000/data.csv"])
  /\ deletions ["backups/20240101-000000/app.log";
                "backups/20240101-000000/config.json";
                "backups/20240101-000000/data.csv"] ["20240101-000000"]
     = ["backups/20240101-000000/app.log";
        "backups/20240101-000000/config.json";
        "backups/20240101-000000/data.csv"].
Proof. split; vm_compute; reflexivity. Qed.

#[local]
Instance greater_first_transitive : Transitive greater_first.
Proof. intros a b c Hab Hbc. unfold greater_first in *. by etrans. Qed.

#[local]
Instance greater_first_total : Total greater_first.
Proof. intros a b. unfold greater_first. destruct (total String.le a b); auto. Qed.

Lemma sorted_reverse_elem_of (items : list string) x :
  x ∈ sorted_reverse items <-> x ∈ items.
Proof. unfold sorted_reverse. by rewrite merge_sort_Permutation. Qed.

Lemma sorted_reverse_NoDup (items : list string) :
  NoDup items -> NoDup (sorted_reverse items).
Proof. unfold sorted_reverse. by rewrite merge_sort_Permutation. Qed.

(** The timestamps selected for deletion are the oldest ones.  The
    timestamps of the listing, greatest first, are the kept ones followed by
    the selected ones, and every kept timestamp is strictly greater than
    every selected one.  With [keep_latest >= 0] all but the [keep_latest]
    greatest are selected; a negative [keep_latest] selects only the
    [-keep_latest] smallest (all of them if there are fewer). *)
Theorem old_timestamps_are_the_oldest :
  forall (all_backups : list string) (keep_latest : Z),
    let known := file_backup.timestamps_of all_backups in
    let old := old_timestamps all_backups keep_latest in
    exists kept : list string,
      sorted_reverse (elements known) = kept ++ old
      /\ (forall t, t ∈ kept ++ old <-> t ∈ known)
      /\ NoDup (kept ++ old)
      /\ (forall a b, a ∈ kept -> b ∈ old -> String.le b a /\ a <> b)
      /\ length old
         = Z.to_nat (if (keep_latest <? 0)%Z
                     then Z.min (Z.of_nat (size known)) (- keep_latest)
                     else Z.of_nat (size known) - keep_latest).
Proof.
  intros all_backups keep_latest known old.
  set (sorted := sorted_reverse (elements known)).
  set (start := Z.to_nat (if (keep_latest <? 0)%Z
                          then Z.max (Z.of_nat (length sorted) + keep_latest) 0
                          else keep_latest)).
  assert (old = drop start sorted) as Hold by done.
  assert (NoDup sorted) as Hnodup.
  { apply sorted_reverse_NoDup, NoDup_elements. }
  assert (StronglySorted greater_first sorted) as Hsorted.
  { apply StronglySorted_merge_sort; apply _. }
  assert (length sorted = size known) as Hlen.
  { apply sorted_timestamps_length. }
  exists (take start sorted). rewrite Hold, take_drop. split_and!.
  - done.
  - intros t. unfold sorted. rewrite sorted_reverse_elem_of.
    apply elem_of_elements.
  - done.
  - intros a b Ha Hb. rewrite <- (take_drop start sorted) in Hnodup, Hsorted.
    split.
    + by apply (StronglySorted_app_1_elem_of _ _ _ a b Hsorted).
    + intros ->. apply NoDup_app in Hnodup as (_ & Hdisjoint & _).
      by apply (Hdisjoint b).
  - rewrite length_drop, <- Hlen. unfold start.
    destruct (keep_latest <? 0)%Z eqn:Hneg; lia.
Qed.

(** On an empty listing [cleanup_old_backups] deletes nothing and prints one
    line, which depends on the sign of [keep_latest]: no timestamp is never
    more than a [keep_latest >= 0], so it reports that nothing is to clean
    up; a negative [keep_latest] is less than the count of zero, so it
    announces the cleaning up of 0 old backups. *)
Theorem cleanup_of_empty_listing :
  forall (imported : Backend.t) (bucket : string) (keep_latest : Z)
         (w w' : World),
    Backend.list_objects imported bucket "backups/" w = (Returns [], w') ->
    file_backup.cleanup_old_backups imported bucket keep_latest w
    = (Returns tt,
       with_output w'
         [if (keep_latest <? 0)%Z
          then "🗑️  Cleaning up " +:+ str 0 +:+ " old backup(s)..."
          else "📦 Only " +:+ str 0
                 +:+ " backup(s) exist, nothing to clean up"]).
Proof.
  intros imported bucket keep_latest w w' Hlist.
  unfold file_backup.cleanup_old_backups, file_backup.list_backups.
  unfold bind at 1. rewrite Hlist. cbv zeta.
  change (file_backup.timestamps_of []) with (∅ : gset string).
  rewrite elements_empty.
  change (sorted_reverse []) with (@nil string).
  change (Z.of_nat (length (@nil string))) with 0%Z.
  destruct (Z.leb_spec 0 keep_latest) as [Hle|Hlt].
  - rewrite (proj2 (Z.ltb_ge keep_latest 0)) by done. done.
  - rewrite (proj2 (Z.ltb_lt keep_latest 0)) by done.
    unfold slice_from, bind. rewrite drop_nil. done.
Qed.

Lemma cleanup_of_empty_listing_witness :
  Backend.list_objects
    (Backend.mk (fun _ _ _ => ret tt) (fun _ _ _ => ret tt)
       (fun _ _ => ret tt) (fun _ _ => ret []))
    "my-backups" "backups/" (mkWorld ∅ ∅ []) = (Returns [], mkWorld ∅ ∅ [])
  /\ file_backup.cleanup_old_backups
       (Backend.mk (fun _ _ _ => ret tt) (fun _ _ _ => ret tt)
          (fun _ _ => ret tt) (fun _ _ => ret []))
       "my-backups" (-1) (mkWorld ∅ ∅ [])
     = (Returns tt,
        with_output (mkWorld ∅ ∅ [])
          ["🗑️  Cleaning up " +:+ str 0 +:+ " old backup(s)..."]).
Proof.
  split; [reflexivity|].
  by apply (cleanup_of_empty_listing
              (Backend.mk (fun _ _ _ => ret tt) (fun _ _ _ => ret tt)
                 (fun _ _ => ret tt) (fun _ _ => ret []))
              "my-backups" (-1) (mkWorld ∅ ∅ []) (mkWorld ∅ ∅ [])).
Defined.

End ScriptFacts.

(** * Splitting and searching the paths of a listing *)

Module PathFacts.
Import builtins.

Lemma append_cons c (a b : string) : String c a +:+ b = String c (a +:+ b).
Proof. done. Qed.

Lemma string_app_assoc (a b c : string) :
  (a +:+ b) +:+ c = a +:+ (b +:+ c).
Proof.
  induction a as [|x a IH]; [done|]. rewrite !append_cons. by rewrite IH.
Qed.

Lemma string_app_nil_r (a : string) : a +:+ "" = a.
Proof. induction a as [|x a IH]; [done|]. rewrite append_cons. by rewrite IH. Qed.


Lemma split_cons c (s : string) :
  split "/" (String c s)
    = if decide (c = "/"%char) then "" :: split "/" s
      else
        match split "/" s with
        | piece :: pieces => String c piece :: pieces
        | [] => [String c ""]
        end.
Proof. done. Qed.

Lemma no_slash_cons c (s : string) :
  no_slash (String c s) = negb (bool_decide (c = "/"%char)) && no_slash s.
Proof. done. Qed.

Lemma no_slash_app (a b : string) :
  no_slash (a +:+ b) = no_slash a && no_slash b.
Proof.
  induction a as [|x a IH]; [done|]. rewrite append_cons, !no_slash_cons.
  rewrite IH. by rewrite andb_assoc.
Qed.

Lemma split_nonempty s : split "/" s <> [].
Proof.
  destruct s as [|c s]; [done|]. rewrite split_cons.
  destruct (decide (c = "/"%char)); [done|]. by destruct (split "/" s).
Qed.

Lemma split_no_slash (a : string) : no_slash a = true -> split "/" a = [a].
Proof.
  induction a as [|c a IH]; [done|]. rewrite split_cons, no_slash_cons.
  intros H. apply andb_true_iff in H as [Hc Ha].
  apply negb_true_iff, bool_decide_eq_false in Hc.
  rewrite decide_False by done. by rewrite IH.
Qed.

Lemma split_app_slash (a b : string) :
  no_slash a = true ->
  split "/" (a +:+ String "/" b) = a :: split "/" b.
Proof.
  induction a as [|c a IH]; intros H.
  - change ("" +:+ String "/" b) with (String "/" b).
    rewrite split_cons. by rewrite decide_True.
  - rewrite append_cons, split_cons. rewrite no_slash_cons in H.
    apply andb_true_iff in H as [Hc Ha].
    apply negb_true_iff, bool_decide_eq_false in Hc.
    rewrite decide_False by done. by rewrite IH.
Qed.

Lemma split_length_app (a b : string) :
  length (split "/" (a +:+ b)) + 1
    = length (split "/" a) + length (split "/" b).
Proof.
  induction a as [|c a IH].
  - change ("" +:+ b) with b. simpl. lia.
  - rewrite append_cons, !split_cons.
    destruct (decide (c = "/"%char)); simpl; [lia|].
    pose proof (split_nonempty (a +:+ b)).
    pose proof (split_nonempty a).
    destruct (split "/" (a +:+ b)), (split "/" a); simpl in *;
      first [done|lia].
Qed.

Lemma split_length_one (a : string) :
  length (split "/" a) = 1 -> no_slash a = true.
Proof.
  induction a as [|c a IH]; [done|]. rewrite split_cons, no_slash_cons.
  destruct (decide (c = "/"%char)) as [->|Hc]; simpl.
  - pose proof (split_nonempty a). destruct (split "/" a); simpl; [done|lia].
  - intros H. rewrite bool_decide_eq_false_2 by done. simpl. apply IH.
    pose proof (split_nonempty a). by destruct (split "/" a).
Qed.

Lemma prefix_spec (p s : string) :
  String.prefix p s = true -> exists v, s = p +:+ v.
Proof.
  revert s. induction p as [|c p IH]; intros s.
  - intros _. by exists s.
  - destruct s as [|d s]; [done|]. simpl.
    destruct (ascii_dec c d) as [->|]; [|done].
    intros H. destruct (IH _ H) as [v ->]. by exists v.
Qed.

Lemma prefix_app (p v : string) : String.prefix p (p +:+ v) = true.
Proof.
  induction p as [|c p IH]; [by destruct v|]. rewrite append_cons. simpl.
  by destruct (ascii_dec c c).
Qed.

Lemma contains_cons (p : string) c (s : string) :
  contains p (String c s) = String.prefix p (String c s) || contains p s.
Proof. done. Qed.

Lemma contains_spec (p s : string) :
  contains p s = true -> exists u v, s = u +:+ p +:+ v.
Proof.
  induction s as [|c s IH].
  - change (contains p "") with (String.prefix p "" || false).
    rewrite orb_false_r. intros H. apply prefix_spec in H as [v ->].
    by exists "", v.
  - rewrite contains_cons. intros H. apply orb_true_iff in H as [H|H].
    + apply prefix_spec in H as [v ->]. by exists "", v.
    + destruct (IH H) as (u & v & ->). by exists (String c u), v.
Qed.

Lemma contains_prefix (p v : string) : contains p (p +:+ v) = true.
Proof.
  destruct (p +:+ v) eqn:E.
  - change (contains p "") with (String.prefix p "" || false).
    by rewrite <- E, prefix_app.
  - rewrite contains_cons, <- E. by rewrite prefix_app.
Qed.

End PathFacts.

(** * The backups [cleanup_old_backups] deletes *)

Module CleanupFacts.
Import builtins PathFacts.

Lemma split_entry (timestamp name : string) :
  no_slash timestamp = true -> no_slash name = true ->
  split "/" (backup_entry timestamp name) = ["backups"; timestamp; name].
Proof.
  intros Ht Hn. unfold backup_entry.
  change ("backups/" +:+ timestamp +:+ "/" +:+ name)
    with ("backups" +:+ String "/" (timestamp +:+ String "/" name)).
  rewrite split_app_slash by done. rewrite split_app_slash by done.
  by rewrite split_no_slash.
Qed.

(** The timestamp pattern of the second loop occurs in an entry exactly when
    it is the entry's own timestamp. *)
Lemma contains_entry (t timestamp name : string) :
  no_slash t = true -> no_slash timestamp = true -> no_slash name = true ->
  contains ("backups/" +:+ t +:+ "/") (backup_entry timestamp name)
    = bool_decide (t = timestamp).
Proof.
  intros Ht Hts Hn. destruct (decide (t = timestamp)) as [->|Hne].
  - rewrite bool_decide_eq_true_2 by done.
    replace (backup_entry timestamp name)
      with (("backups/" +:+ timestamp +:+ "/") +:+ name).
    + apply contains_prefix.
    + unfold backup_entry. by rewrite !string_app_assoc.
  - rewrite bool_decide_eq_false_2 by done.
    destruct (contains _ _) eqn:Hc; [|done]. exfalso.
    apply contains_spec in Hc as (u & v & Heq).
    change ("backups/" +:+ t +:+ "/")
      with ("backups" +:+ String "/" (t +:+ String "/" "")) in Heq.
    assert (length (split "/" u) + length (split "/" v) = 2) as Hlen.
    { pose proof (f_equal (fun s => length (split "/" s)) Heq) as Hl.
      cbv beta in Hl. rewrite split_entry in Hl by done.
      pose proof (split_length_app u
        (("backups" +:+ String "/" (t +:+ String "/" "")) +:+ v)) as H1.
      pose proof (split_length_app
        ("backups" +:+ String "/" (t +:+ String "/" "")) v) as H2.
      rewrite split_app_slash, split_app_slash in H2 by done.
      simpl in *. lia. }
    pose proof (split_nonempty u) as Hu. pose proof (split_nonempty v) as Hv.
    assert (no_slash u = true /\ no_slash v = true) as [Hnu Hnv].
    { split; apply split_length_one;
        destruct (split "/" u), (split "/" v); simpl in *; try done; lia. }
    assert (u +:+ ("backups" +:+ String "/" (t +:+ String "/" "")) +:+ v
            = (u +:+ "backups") +:+ String "/" (t +:+ String "/" v)) as Hshape.
    { rewrite !string_app_assoc. f_equal.
      change (String "/" (t +:+ String "/" "") +:+ v)
        with (String "/" ((t +:+ String "/" "") +:+ v)).
      by rewrite string_app_assoc. }
    rewrite Hshape in Heq.
    apply (f_equal (split "/")) in Heq.
    rewrite split_entry in Heq by done.
    rewrite split_app_slash in Heq by (by rewrite no_slash_app, Hnu).
    rewrite split_app_slash in Heq by done.
    by simplify_eq.
Qed.

Lemma timestamps_of_entries (entries : list (string * string))
    (seen : gset string) :
  Forall (fun e => no_slash e.1 = true /\ no_slash e.2 = true) entries ->
  foldl (fun timestamps backup =>
           let parts := split "/" backup in
           if decide (2 <= length parts)
           then
             match parts !! 1 with
             | Some part => {[ part ]} ∪ timestamps
             | None => timestamps
             end
           else timestamps) seen
    ((fun e => backup_entry e.1 e.2) <$> entries)
  = list_to_set entries.*1 ∪ seen.
Proof.
  intros Hall. revert seen.
  induction Hall as [|e rest [He1 He2] _ IH]; intros seen.
  - simpl. by rewrite (left_id_L ∅ (∪)).
  - rewrite !fmap_cons. cbn [foldl]. rewrite split_entry by done.
    simpl. rewrite IH. apply set_eq. intros x.
    rewrite !elem_of_union, elem_of_singleton. tauto.
Qed.

Lemma old_timestamps_known (all_backups : list string) (keep_latest : Z) :
  NoDup (old_timestamps all_backups keep_latest)
  /\ forall t, t ∈ old_timestamps all_backups keep_latest ->
       t ∈ file_backup.timestamps_of all_backups.
Proof.
  unfold old_timestamps, slice_from. set (start := Z.to_nat _).
  set (sorted := sorted_reverse _).
  assert (NoDup sorted) as Hnodup.
  { unfold sorted, sorted_reverse. rewrite merge_sort_Permutation.
    apply NoDup_elements. }
  rewrite <- (take_drop start sorted) in Hnodup.
  apply NoDup_app in Hnodup as (_ & _ & Hdrop). split; [done|].
  intros t Ht. apply elem_of_elements.
  assert (t ∈ sorted) as Hin.
  { rewrite <- (take_drop start sorted). apply elem_of_app. by right. }
  unfold sorted, sorted_reverse in Hin.
  by rewrite merge_sort_Permutation in Hin.
Qed.

(** The inner loop deletes an entry once if its timestamp is old and not at
    all otherwise. *)
Lemma entry_selected (old : list string) (timestamp name : string) :
  NoDup old ->
  Forall (fun t => no_slash t = true) old ->
  no_slash timestamp = true -> no_slash name = true ->
  (old ≫= fun old_ts =>
     if contains ("backups/" +:+ old_ts +:+ "/") (backup_entry timestamp name)
     then [backup_entry timestamp name] else [])
  = if decide (timestamp ∈ old) then [backup_entry timestamp name] else [].
Proof.
  intros Hnodup Hold Hts Hname.
  induction Hnodup as [|t old Ht Hnodup IH].
  - by rewrite decide_False by apply not_elem_of_nil.
  - apply Forall_cons in Hold as [Hslash Hold].
    change ((t :: old) ≫= ?f) with (f t ++ (old ≫= f)). cbv beta.
    rewrite contains_entry, IH by done.
    destruct (decide (t = timestamp)) as [->|Hne].
    + rewrite bool_decide_eq_true_2 by done.
      rewrite (decide_False (P := timestamp ∈ old)) by done.
      by rewrite decide_True by apply list_elem_of_here.
    + rewrite bool_decide_eq_false_2 by done. simpl.
      destruct (decide (timestamp ∈ old)) as [Hin|Hnin].
      * by rewrite decide_True by by apply list_elem_of_further.
      * rewrite decide_False; [done|].
        rewrite not_elem_of_cons. split; [congruence|done].
Qed.

(** On a listing whose entries all have the form [backups/TIMESTAMP/name],
    with no further [/] in the timestamp and the name, the timestamps found
    are those of the entries, and the paths of [deletions] are the entries
    with an old timestamp, each once and in the order of the listing. *)
Lemma deletions_of_entries (entries : list (string * string))
    (keep_latest : Z) :
  Forall (fun e => no_slash e.1 = true /\ no_slash e.2 = true) entries ->
  let all_backups := (fun e => backup_entry e.1 e.2) <$> entries in
  let old := old_timestamps all_backups keep_latest in
  file_backup.timestamps_of all_backups = list_to_set entries.*1
  /\ deletions all_backups old
     = (fun e => backup_entry e.1 e.2)
         <$> filter (fun e => e.1 ∈ old) entries.
Proof.
  intros Hall all_backups old.
  assert (file_backup.timestamps_of all_backups = list_to_set entries.*1)
    as Hknown.
  { unfold file_backup.timestamps_of, all_backups.
    rewrite timestamps_of_entries by done. by rewrite (right_id_L ∅ (∪)). }
  split; [done|].
  destruct (old_timestamps_known all_backups keep_latest) as [Hnodup Hsub].
  fold old in Hnodup, Hsub.
  assert (Forall (fun t => no_slash t = true) old) as Hold.
  { apply Forall_forall. intros t Ht. apply Hsub in Ht.
    rewrite Hknown, elem_of_list_to_set in Ht.
    apply list_elem_of_fmap in Ht as (e & -> & He).
    rewrite Forall_forall in Hall. by apply Hall. }
  clearbody old. unfold deletions, all_backups.
  clear Hknown Hsub all_backups.
  induction Hall as [|e rest [He1 He2] _ IH]; [done|].
  rewrite fmap_cons.
  change ((?x :: ?l) ≫= ?f) with (f x ++ (l ≫= f)). cbv beta.
  rewrite entry_selected, IH by done.
  destruct (decide (e.1 ∈ old)) as [Hin|Hnin].
  - by rewrite filter_cons_True by done.
  - by rewrite filter_cons_False by done.
Qed.

(** What [cleanup_old_backups] deletes on a well-formed listing.  Let the
    listing consist of entries of the form [backups/TIMESTAMP/name], with no
    further [/] in the timestamp and the name, and let [delete] leave the
    list that [list_objects] returned as it is.  Then the timestamps found
    are those of the entries.  If there are at most [keep_latest] of them,
    one line is printed and nothing is deleted.  Otherwise the function
    deletes the entries with an old timestamp, each once and in the order of
    the listing, printing a line after each, until a deletion fails; an
    entry whose timestamp is kept is not deleted. *)
Theorem cleanup_deletes_the_old_entries :
  forall (imported : Shared.t) (bucket : string) (keep_latest : Z)
         (entries : list (string * string)) (w w' : World) (fuel : nat),
    leaves_listing imported ->
    Shared.list_objects imported bucket "backups/" w
      = (Returns ((fun e => backup_entry e.1 e.2) <$> entries), w') ->
    Forall (fun e => no_slash e.1 = true /\ no_slash e.2 = true) entries ->
    length entries < fuel ->
    let all_backups := (fun e => backup_entry e.1 e.2) <$> entries in
    let known : gset string := list_to_set entries.*1 in
    let old := old_timestamps all_backups keep_latest in
    file_backup.timestamps_of all_backups = known
    /\ Shared.cleanup_old_backups imported fuel bucket keep_latest w
       = Some
           (if (Z.of_nat (size known) <=? keep_latest)%Z
            then
              (Returns tt,
               with_output w'
                 ["📦 Only " +:+ str (size known)
                    +:+ " backup(s) exist, nothing to clean up"])
            else
              for_each
                ((fun e => backup_entry e.1 e.2)
                   <$> filter (fun e => e.1 ∈ old) entries)
                (fun backup =>
                   bind (Shared.delete imported bucket backup all_backups)
                     (fun _ => print ("  Deleted: " +:+ backup)))
                (with_output w'
                   ["🗑️  Cleaning up " +:+ str (length old)
                      +:+ " old backup(s)..."])).
Proof.
  intros imported bucket keep_latest entries w w' fuel Hleaves Hlist Hall
    Hfuel all_backups known old.
  destruct (deletions_of_entries entries keep_latest Hall)
    as [Hknown Hdeletions].
  fold all_backups in Hknown, Hdeletions. fold old in Hdeletions.
  fold known in Hknown. split; [exact Hknown|].
  unfold Shared.cleanup_old_backups, Shared.list_backups.
  unfold Shared.and_then at 1. rewrite Hlist. fold all_backups.
  cbv zeta. rewrite ScriptFacts.sorted_timestamps_length, Hknown.
  destruct (Z.of_nat (size known) <=? keep_latest)%Z; [done|].
  unfold Shared.and_then at 1. rewrite ScriptFacts.print_spec.
  rewrite <- Hknown. fold (old_timestamps all_backups keep_latest). fold old.
  rewrite ScriptFacts.second_loop_unchanged; [|done|].
  - by rewrite Hdeletions.
  - unfold all_backups. by rewrite length_fmap.
Qed.

Lemma cleanup_deletes_the_old_entries_witness :
  leaves_listing
    (Shared.mk
       (fun _ _ =>
          ret ((fun e => backup_entry e.1 e.2)
                 <$> [("20240101-000000", "app.log");
                      ("20240301-000000", "app.log");
                      ("20240201-000000", "config.json");
                      ("20240101-000000", "config.json")]))
       (fun _ _ items => ret items))
  /\ Forall (fun e => no_slash e.1 = true /\ no_slash e.2 = true)
       [("20240101-000000", "app.log"); ("20240301-000000", "app.log");
        ("20240201-000000", "config.json");
        ("20240101-000000", "config.json")]
  /\ Shared.cleanup_old_backups
       (Shared.mk
          (fun _ _ =>
             ret ((fun e => backup_entry e.1 e.2)
                    <$> [("20240101-000000", "app.log");
                         ("20240301-000000", "app.log");
                         ("20240201-000000", "config.json");
                         ("20240101-000000", "config.json")]))
          (fun _ _ items => ret items))
       5 "my-backups" 2 (mkWorld ∅ ∅ [])
     = Some (Returns tt,
             mkWorld ∅ ∅
               ["🗑️  Cleaning up 1 old backup(s)...";
                "  Deleted: backups/20240101-000000/app.log";
                "  Deleted: backups/20240101-000000/config.json"]).
Proof.
  assert (leaves_listing
    (Shared.mk
       (fun _ _ =>
          ret ((fun e => backup_entry e.1 e.2)
                 <$> [("20240101-000000", "app.log");
                      ("20240301-000000", "app.log");
                      ("20240201-000000", "config.json");
                      ("20240101-000000", "config.json")]))
       (fun _ _ items => ret items))) as Hleaves.
  { intros bucket path items items' w w' Hdelete. by inversion Hdelete. }
  assert (Forall (fun e => no_slash e.1 = true /\ no_slash e.2 = true)
    [("20240101-000000", "app.log"); ("20240301-000000", "app.log");
     ("20240201-000000", "config.json"); ("20240101-000000", "config.json")])
    as Hall.
  { repeat constructor. }
  split_and!; [exact Hleaves|exact Hall|].
  rewrite (proj2 (cleanup_deletes_the_old_entries _ "my-backups" 2 _
                    (mkWorld ∅ ∅ []) (mkWorld ∅ ∅ []) 5 Hleaves eq_refl Hall
                    ltac:(simpl; lia))).
  vm_compute. reflexivity.
Defined.

End CleanupFacts.
